(** * SchoolSync: extraction, diff and sync pipeline

    A shallow embedding of the SchoolSync browser extension's core
    (CSV export parser, roster name splitter, detail crawler, differ,
    synchronizer and token storage) together with the properties its
    specification states about them.

    Conventions of the embedding.
    - A JavaScript string is the list of its UTF-16 code units ([list N]).
    - [undefined]/[null] are [None]; a property that may be missing is an
      [option].
    - A plain object used as a string-keyed dictionary is a [gmap] of its own
      properties.
    - [async] functions are modelled by their result; every effect they have
      (network calls, console output, storage, the module-level session
      variable) is threaded explicitly. *)

From Stdlib Require Import NArith List Lia String Ascii Bool.
From stdpp Require Import gmap strings list fin_maps.

(** ** JavaScript strings *)

Module JS.
#[local] Open Scope N_scope.

Abbreviation jsstring := (list N).

(** An ASCII literal as a JavaScript string. *)
Definition lit (s : string) : jsstring :=
  map N_of_ascii (list_ascii_of_string s).

(** Truthiness of a possibly-undefined string: [undefined], [null] and the
    empty string are falsy. *)
Definition truthy (o : option jsstring) : bool :=
  match o with
  | Some (_ :: _) => true
  | _ => false
  end.

(** [x || ''] for a possibly-undefined string. *)
Definition or_empty (o : option jsstring) : jsstring :=
  match o with
  | Some s => s
  | None => []
  end.

(** ECMAScript LineTerminator code points. *)
Definition is_line_terminator (c : N) : bool :=
  (c =? 10) || (c =? 13) || (c =? 8232) || (c =? 8233).

(** ECMAScript WhiteSpace and LineTerminator: what [String.prototype.trim]
    removes and what the regular expression class [\s] matches.  U+FEFF, the
    byte order mark, belongs to it. *)
Definition is_space (c : N) : bool :=
  (c =? 9) || (c =? 11) || (c =? 12) || (c =? 32) || (c =? 160)
  || (c =? 5760) || ((8192 <=? c) && (c <=? 8202))
  || (c =? 8239) || (c =? 8287) || (c =? 12288) || (c =? 65279)
  || is_line_terminator c.

Fixpoint trimStart (s : jsstring) : jsstring :=
  match s with
  | c :: rest => if is_space c then trimStart rest else s
  | [] => []
  end.

Definition trimEnd (s : jsstring) : jsstring :=
  rev (trimStart (rev s)).

Definition trim (s : jsstring) : jsstring :=
  trimEnd (trimStart s).

(** [String.prototype.toLowerCase], given on the Basic Latin and Latin-1
    Supplement blocks; code units outside them are left as they are. *)
Definition lower_unit (c : N) : N :=
  if (65 <=? c) && (c <=? 90) then c + 32
  else if (192 <=? c) && (c <=? 222) && negb (c =? 215) then c + 32
  else c.

Definition toLowerCase (s : jsstring) : jsstring := map lower_unit s.

(** [s.includes(c)] for a one-unit needle. *)
Definition includes (c : N) (s : jsstring) : bool :=
  existsb (N.eqb c) s.

(** [s.split(sep)] for a one-unit separator: never returns an empty array. *)
Fixpoint split_on (sep : N) (cur : jsstring) (s : jsstring) : list jsstring :=
  match s with
  | [] => [cur]
  | c :: rest =>
      if c =? sep then cur :: split_on sep [] rest
      else split_on sep (cur ++ [c]) rest
  end.

Definition split (sep : N) (s : jsstring) : list jsstring := split_on sep [] s.

(** [s.split(/\s+/)]: a maximal run of white space is one separator; a run at
    either end of the text leaves an empty piece there. *)
Fixpoint split_ws_on (cur : jsstring) (in_run : bool) (s : jsstring)
  : list jsstring :=
  match s with
  | [] => [cur]
  | c :: rest =>
      if is_space c then
        if in_run then split_ws_on cur true rest
        else cur :: split_ws_on [] true rest
      else split_ws_on (cur ++ [c]) false rest
  end.

Definition split_ws (s : jsstring) : list jsstring :=
  match s with
  | [] => [[]]
  | _ => split_ws_on [] false s
  end.

(** [parts.join(sep)]. *)
Fixpoint join (sep : jsstring) (parts : list jsstring) : jsstring :=
  match parts with
  | [] => []
  | [p] => p
  | p :: rest => p ++ sep ++ join sep rest
  end.

(** Decimal rendering of a non-negative integer, as a template literal
    prints it. *)
Fixpoint digits_fuel (fuel : nat) (n : N) (acc : jsstring) : jsstring :=
  match fuel with
  | O => acc
  | S fuel' =>
      let acc' := (48 + n mod 10) :: acc in
      if n <? 10 then acc' else digits_fuel fuel' (n / 10) acc'
  end.

Definition decimal (n : N) : jsstring :=
  digits_fuel (S (N.to_nat (N.log2 n))) n [].

Definition is_digit (c : N) : bool := (48 <=? c) && (c <=? 57).

Fixpoint take_while (p : N -> bool) (s : jsstring) : jsstring :=
  match s with
  | c :: rest => if p c then c :: take_while p rest else []
  | [] => []
  end.

Fixpoint drop_while (p : N -> bool) (s : jsstring) : jsstring :=
  match s with
  | c :: rest => if p c then drop_while p rest else s
  | [] => []
  end.

End JS.

(** ** SHA-256, UTF-8 and hexadecimal rendering

    [crypto.subtle.digest('SHA-256', new TextEncoder().encode(s))] followed
    by the per-byte [toString(16).padStart(2, '0')] of the source. *)

Module Sha256.
Import JS.
#[local] Open Scope N_scope.

Definition mask32 : N := 4294967295.
Definition wrap32 (x : N) : N := x mod 4294967296.
Definition add32 (a b : N) : N := wrap32 (a + b).
Definition not32 (a : N) : N := N.lxor a mask32.
Definition rotr (n x : N) : N :=
  wrap32 (N.lor (N.shiftr x n) (N.shiftl x (32 - n))).

Definition Ch (x y z : N) : N := N.lxor (N.land x y) (N.land (not32 x) z).
Definition Maj (x y z : N) : N :=
  N.lxor (N.lxor (N.land x y) (N.land x z)) (N.land y z).
Definition Sigma0 (x : N) : N := N.lxor (N.lxor (rotr 2 x) (rotr 13 x)) (rotr 22 x).
Definition Sigma1 (x : N) : N := N.lxor (N.lxor (rotr 6 x) (rotr 11 x)) (rotr 25 x).
Definition sigma0 (x : N) : N := N.lxor (N.lxor (rotr 7 x) (rotr 18 x)) (N.shiftr x 3).
Definition sigma1 (x : N) : N := N.lxor (N.lxor (rotr 17 x) (rotr 19 x)) (N.shiftr x 10).

(** The constants are the leading 32 fractional bits of the square roots
    (initial state) and cube roots (round constants) of the first primes. *)
Definition primes64 : list N :=
  [2; 3; 5; 7; 11; 13; 17; 19; 23; 29; 31; 37; 41; 43; 47; 53;
   59; 61; 67; 71; 73; 79; 83; 89; 97; 101; 103; 107; 109; 113; 127; 131;
   137; 139; 149; 151; 157; 163; 167; 173; 179; 181; 191; 193; 197; 199;
   211; 223; 227; 229; 233; 239; 241; 251; 257; 263; 269; 271; 277; 281;
   283; 293; 307; 311].

Fixpoint cbrt_bits (bits : nat) (n r : N) : N :=
  match bits with
  | O => r
  | S b =>
      let r' := r + N.shiftl 1 (N.of_nat b) in
      cbrt_bits b n (if r' * r' * r' <=? n then r' else r)
  end.

Definition frac_sqrt (p : N) : N := wrap32 (N.sqrt (N.shiftl p 64)).
Definition frac_cbrt (p : N) : N := wrap32 (cbrt_bits 36 (N.shiftl p 96) 0).

Definition K : list N := Eval vm_compute in map frac_cbrt primes64.
Definition H0 : list N := Eval vm_compute in map frac_sqrt (firstn 8 primes64).

Record state := State { sa : N; sb : N; sc : N; sd : N; se : N; sf : N; sg : N; sh : N }.

Definition init_state : state :=
  match H0 with
  | [a; b; c; d; e; f; g; h] => State a b c d e f g h
  | _ => State 0 0 0 0 0 0 0 0
  end.

(** Padding: a 1 bit, zero bits up to 56 mod 64 bytes, the bit length on
    eight bytes, big-endian. *)
Definition be_bytes (count : nat) (x : N) : list N :=
  map (fun i => (N.shiftr x (8 * N.of_nat i)) mod 256) (rev (seq 0 count)).

Definition pad (msg : list N) : list N :=
  let len := N.of_nat (length msg) in
  let zeros := N.to_nat ((119 - len mod 64) mod 64) in
  msg ++ [128] ++ repeat 0 zeros ++ be_bytes 8 (8 * len).

Fixpoint be_word (bs : list N) (acc : N) : N :=
  match bs with
  | [] => acc
  | b :: rest => be_word rest (acc * 256 + b)
  end.

Fixpoint words (count : nat) (bs : list N) : list N :=
  match count with
  | O => []
  | S c => be_word (firstn 4 bs) 0 :: words c (skipn 4 bs)
  end.

(** The message schedule: sixteen block words extended to sixty-four. *)
Fixpoint extend (count : nat) (w : list N) : list N :=
  match count with
  | O => w
  | S c =>
      let t := length w in
      let at_ (k : nat) := nth (t - k) w 0 in
      extend c (w ++ [add32 (add32 (sigma1 (at_ 2%nat)) (at_ 7%nat))
                            (add32 (sigma0 (at_ 15%nat)) (at_ 16%nat))])
  end.

Definition round (s : state) (kw : N * N) : state :=
  let '(k, w) := kw in
  let t1 := add32 (add32 (add32 (sh s) (Sigma1 (se s))) (Ch (se s) (sf s) (sg s)))
                  (add32 k w) in
  let t2 := add32 (Sigma0 (sa s)) (Maj (sa s) (sb s) (sc s)) in
  State (add32 t1 t2) (sa s) (sb s) (sc s) (add32 (sd s) t1) (se s) (sf s) (sg s).

Definition compress (s : state) (block : list N) : state :=
  let w := extend 48 (words 16 block) in
  let r := fold_left round (combine K w) s in
  State (add32 (sa s) (sa r)) (add32 (sb s) (sb r)) (add32 (sc s) (sc r))
        (add32 (sd s) (sd r)) (add32 (se s) (se r)) (add32 (sf s) (sf r))
        (add32 (sg s) (sg r)) (add32 (sh s) (sh r)).

Fixpoint blocks (count : nat) (bs : list N) (s : state) : state :=
  match count with
  | O => s
  | S c => blocks c (skipn 64 bs) (compress s (firstn 64 bs))
  end.

(** The thirty-two digest bytes. *)
Definition digest (msg : list N) : list N :=
  let p := pad msg in
  let s := blocks (length p / 64) p init_state in
  concat (map (be_bytes 4) [sa s; sb s; sc s; sd s; se s; sf s; sg s; sh s]).

(** [new TextEncoder().encode(s)]: UTF-8, a surrogate pair is one code
    point, an unpaired surrogate becomes U+FFFD. *)
Definition utf8_point (cp : N) : list N :=
  if cp <? 128 then [cp]
  else if cp <? 2048 then [192 + cp / 64; 128 + cp mod 64]
  else if cp <? 65536 then [224 + cp / 4096; 128 + (cp / 64) mod 64; 128 + cp mod 64]
  else [240 + cp / 262144; 128 + (cp / 4096) mod 64;
        128 + (cp / 64) mod 64; 128 + cp mod 64].

Definition is_high (c : N) : bool := (55296 <=? c) && (c <=? 56319).
Definition is_low (c : N) : bool := (56320 <=? c) && (c <=? 57343).

Fixpoint utf8 (s : jsstring) : list N :=
  match s with
  | [] => []
  | c :: rest =>
      if is_high c then
        match rest with
        | d :: rest' =>
            if is_low d then
              utf8_point (65536 + (c - 55296) * 1024 + (d - 56320)) ++ utf8 rest'
            else utf8_point 65533 ++ utf8 rest
        | [] => utf8_point 65533
        end
      else if is_low c then utf8_point 65533 ++ utf8 rest
      else utf8_point c ++ utf8 rest
  end.

(** One hexadecimal digit, lower case. *)
Definition hex_digit (d : N) : N := if d <? 10 then 48 + d else 87 + d.

(** [b.toString(16).padStart(2, '0')] for a byte. *)
Definition hex2 (b : N) : jsstring := [hex_digit ((b / 16) mod 16); hex_digit (b mod 16)].

Definition hex (bs : list N) : jsstring := concat (map hex2 bs).

Definition sha256_hex (s : jsstring) : jsstring := hex (digest (utf8 s)).


End Sha256.


(** ** Canonical student record (lib/capsule-client.js, typedef) *)

Module Model.
Import JS.

Record StudentRecord := mkStudent {
  sourcedId : jsstring;
  firstName : option jsstring;
  lastName : option jsstring;
  gradeLevel : option jsstring;
  homeRoom : option jsstring;
  enrollStatus : option jsstring;
  email : option jsstring;
  schoolId : option jsstring;
  dob : option jsstring;
  gender : option jsstring;
  extra : gmap jsstring jsstring
}.

(** What one [fetch] call does: it rejects (network error, abort by the
    timeout controller) or resolves to a response with a status and a body;
    reading the body may itself reject ([None]). *)
Inductive fetch_outcome :=
| Rejects (name message : jsstring)
| Responds (status : N) (text : option jsstring).

(** How a call ends: with a value, or with a thrown error. *)
Inductive completion (A : Type) :=
| Returns (a : A)
| Throws (message : jsstring).
Arguments Returns {A} a.
Arguments Throws {A} message.

(** [response.ok]. *)
Definition ok (status : N) : bool := ((200 <=? status) && (status <=? 299))%N.

End Model.

(** ** Differ (lib/capsule-client.js lines 99-143, service worker) *)

Module Differ.
Import JS Sha256 Model.

(** [JSON.stringify] of a string: QuoteJSONString. *)
Definition hex4 (c : N) : jsstring :=
  [hex_digit ((c / 4096) mod 16); hex_digit ((c / 256) mod 16);
   hex_digit ((c / 16) mod 16); hex_digit (c mod 16)]%N.

Definition escape_unit (c : N) : jsstring :=
  (if c =? 8 then [92; 98]
   else if c =? 9 then [92; 116]
   else if c =? 10 then [92; 110]
   else if c =? 12 then [92; 102]
   else if c =? 13 then [92; 114]
   else if c =? 34 then [92; 34]
   else if c =? 92 then [92; 92]
   else if c <? 32 then [92; 117] ++ hex4 c
   else [c])%N.

Fixpoint quote_units (s : jsstring) : jsstring :=
  match s with
  | [] => []
  | c :: rest =>
      if is_high c then
        match rest with
        | d :: rest' =>
            if is_low d then c :: d :: quote_units rest'
            else [92; 117]%N ++ hex4 c ++ quote_units rest
        | [] => [92; 117]%N ++ hex4 c
        end
      else if is_low c then [92; 117]%N ++ hex4 c ++ quote_units rest
      else escape_unit c ++ quote_units rest
  end.

Definition json_string (s : jsstring) : jsstring :=
  [34%N] ++ quote_units s ++ [34%N].

(** One member of an object literal; a member whose value is [undefined]
    is left out by [JSON.stringify]. *)
Definition json_member (key : string) (value : option jsstring) : list jsstring :=
  match value with
  | Some v => [json_string (lit key) ++ [58%N] ++ json_string v]
  | None => []
  end.

Definition json_object (members : list jsstring) : jsstring :=
  [123%N] ++ join [44%N] members ++ [125%N].

(** The serialization hashed by [hashStudent]. *)
Definition normalized (student : StudentRecord) : jsstring :=
  json_object
    (json_member "id" (Some (sourcedId student))
     ++ json_member "fn" (firstName student)
     ++ json_member "ln" (lastName student)
     ++ json_member "gr" (Some (or_empty (gradeLevel student)))
     ++ json_member "hr" (Some (or_empty (homeRoom student)))
     ++ json_member "es" (Some (or_empty (enrollStatus student)))
     ++ json_member "em" (Some (or_empty (email student)))
     ++ json_member "si" (Some (or_empty (schoolId student)))).

Definition hashStudent (student : StudentRecord) : jsstring :=
  sha256_hex (normalized student).

(** [existingHashes[id] !== hash]. *)
Definition differs (existingHashes : gmap jsstring jsstring)
  (id hash : jsstring) : bool :=
  bool_decide (existingHashes !! id ≠ Some hash).

(** One iteration of the loop of [diffStudents]. *)
Definition diff_step (hashOf : StudentRecord -> jsstring)
  (existingHashes : gmap jsstring jsstring)
  (acc : list StudentRecord * gmap jsstring jsstring) (student : StudentRecord)
  : list StudentRecord * gmap jsstring jsstring :=
  let '(changed, newHashes) := acc in
  let hash := hashOf student in
  let newHashes := <[sourcedId student := hash]> newHashes in
  if differs existingHashes (sourcedId student) hash
  then (changed ++ [student], newHashes)
  else (changed, newHashes).

Definition diffStudents (students : list StudentRecord)
  (existingHashes : gmap jsstring jsstring)
  : list StudentRecord * gmap jsstring jsstring :=
  fold_left (diff_step hashStudent existingHashes) students ([], ∅).

(** The service worker's copy, which hashes in line. *)
Definition diffStudentsInWorker (students : list StudentRecord)
  (existingHashes : gmap jsstring jsstring)
  : list StudentRecord * gmap jsstring jsstring :=
  fold_left
    (diff_step
       (fun student =>
          let normalized :=
            json_object
              (json_member "id" (Some (sourcedId student))
               ++ json_member "fn" (firstName student)
               ++ json_member "ln" (lastName student)
               ++ json_member "gr" (Some (or_empty (gradeLevel student)))
               ++ json_member "hr" (Some (or_empty (homeRoom student)))
               ++ json_member "es" (Some (or_empty (enrollStatus student)))
               ++ json_member "em" (Some (or_empty (email student)))
               ++ json_member "si" (Some (or_empty (schoolId student)))) in
          hex (digest (utf8 normalized)))
       existingHashes)
    students ([], ∅).

End Differ.

(** ** Credential vault (lib/crypto.js) and token storage (lib/storage.js) *)

(** The Web Crypto and encoding primitives of the platform, which the
    extension only calls. *)
Class WebCrypto := {
  cryptoKey : Type;
  (** [importKey('raw', encode(password), 'PBKDF2', ...)] followed by
      [deriveKey] to an AES-GCM key *)
  pbkdf2_key : list N -> list N -> N -> N -> cryptoKey;
  aes_gcm_encrypt : cryptoKey -> list N -> list N -> list N;
  (** [None]: the promise rejects (authentication tag mismatch) *)
  aes_gcm_decrypt : cryptoKey -> list N -> list N -> option (list N);
  btoa : list N -> JS.jsstring;
  (** [None]: [atob] throws on text that is not base64 *)
  atob : JS.jsstring -> option (list N);
  text_decode : list N -> JS.jsstring
}.

Module Crypto.
Import JS.
Section with_platform.
Context `{WebCrypto}.

Definition PBKDF2_ITERATIONS : N := 100000.
Definition SALT_BYTES : nat := 16.
Definition IV_BYTES : nat := 12.
Definition KEY_LENGTH : N := 256.

Definition deriveKey (password : jsstring) (salt : list N) : cryptoKey :=
  pbkdf2_key (Sha256.utf8 password) salt PBKDF2_ITERATIONS KEY_LENGTH.

(** [salt] and [iv] are what [crypto.getRandomValues] produced. *)
Definition encrypt (salt iv : list N) (plaintext password : jsstring) : jsstring :=
  let key := deriveKey password salt in
  let ciphertext := aes_gcm_encrypt key iv (Sha256.utf8 plaintext) in
  btoa (salt ++ iv ++ ciphertext).

(** [None]: the returned promise rejects. *)
Definition decrypt (encoded password : jsstring) : option jsstring :=
  match atob encoded with
  | None => None
  | Some raw =>
      let salt := firstn SALT_BYTES raw in
      let iv := firstn IV_BYTES (skipn SALT_BYTES raw) in
      let ciphertext := skipn (SALT_BYTES + IV_BYTES) raw in
      let key := deriveKey password salt in
      match aes_gcm_decrypt key iv ciphertext with
      | None => None
      | Some plainBuf => Some (text_decode plainBuf)
      end
  end.

End with_platform.
End Crypto.

Module Storage.
Import JS.
Section with_platform.
Context `{WebCrypto}.

(** The module variable [_sessionToken] and the two [chrome.storage.local]
    keys the modelled functions touch. *)
Record state := mkState {
  _sessionToken : option jsstring;
  encrypted_token : option jsstring;
  capsule_endpoint : option jsstring
}.

Definition setToken (salt iv : list N) (token passphrase : jsstring) (st : state)
  : state :=
  let st := mkState (Some token) (encrypted_token st) (capsule_endpoint st) in
  let encrypted := Crypto.encrypt salt iv token passphrase in
  mkState (_sessionToken st) (Some encrypted) (capsule_endpoint st).

Definition getToken (passphrase : option jsstring) (st : state)
  : option jsstring * state :=
  if truthy (_sessionToken st) then (_sessionToken st, st)
  else if negb (truthy passphrase) then (None, st)
  else
    let encrypted := encrypted_token st in
    if negb (truthy encrypted) then (None, st)
    else
      match Crypto.decrypt (or_empty encrypted) (or_empty passphrase) with
      | Some token =>
          (Some token, mkState (Some token) (encrypted_token st) (capsule_endpoint st))
      | None => (None, st)
      end.

Definition clearSession (st : state) : state :=
  mkState None (encrypted_token st) (capsule_endpoint st).

(** [capsuleEndpoint()] called without argument. *)
Definition capsuleEndpoint (st : state) : option jsstring :=
  if truthy (capsule_endpoint st) then capsule_endpoint st else None.

End with_platform.
End Storage.

(** ** Synchronizer (lib/capsule-client.js lines 31-75, service worker) *)

Module Sync.
Import JS Model.

Definition BATCH_SIZE : nat := 50.

Record request := mkRequest {
  url : jsstring;
  bearer : jsstring;
  students_sent : list StudentRecord
}.

Inductive event :=
| Post (r : request)
| Progress (sent total : nat).

Record result := mkResult {
  success : nat;
  failed : nat;
  errors : list jsstring
}.

Definition sync_url (endpoint : jsstring) : jsstring :=
  endpoint ++ lit "/api/v1/sync/students".

Section batches.
(** The network: the outcome of the k-th request. *)
Variable net : nat -> request -> fetch_outcome.
Variables endpoint token : jsstring.
Variable students : list StudentRecord.
(** How the two copies of the loop word their diagnostics and whether they
    report progress. *)
Variable http_error : nat -> N -> option jsstring -> jsstring.
Variable thrown : nat -> jsstring -> jsstring.
Variable reports : bool.

(** One iteration at index [i]: slice, send, account. *)
Definition batch_step (i : nat) (acc : result * list event) : result * list event :=
  let '(res, trace) := acc in
  let batch := firstn BATCH_SIZE (skipn i students) in
  let req := mkRequest (sync_url endpoint) token batch in
  let res' :=
    match net (i / BATCH_SIZE) req with
    | Responds status text =>
        if ok status
        then mkResult (success res + length batch) (failed res) (errors res)
        else mkResult (success res) (failed res + length batch)
                      (errors res ++ [http_error i status text])
    | Rejects _ message =>
        mkResult (success res) (failed res + length batch)
                 (errors res ++ [thrown i message])
    end in
  let trace' := trace ++ [Post req] in
  (res',
   if reports
   then trace' ++ [Progress (Nat.min (i + BATCH_SIZE) (length students)) (length students)]
   else trace').

(** [for (let i = 0; i < students.length; i += BATCH_SIZE)]. *)
Fixpoint batch_loop (fuel i : nat) (acc : result * list event)
  : result * list event :=
  match fuel with
  | O => acc
  | S fuel' =>
      if i <? length students
      then batch_loop fuel' (i + BATCH_SIZE) (batch_step i acc)
      else acc
  end.

Definition send_batches : result * list event :=
  batch_loop (length students) 0 (mkResult 0 0 [], []).

End batches.

Section with_platform.
Context `{WebCrypto}.

Definition batch_number (i : nat) : jsstring :=
  decimal (N.of_nat (i / BATCH_SIZE + 1)).

(** [syncStudents(students, passphrase, onProgress)]; the progress callback
    is recorded in the trace. *)
Definition syncStudents (net : nat -> request -> fetch_outcome)
  (students : list StudentRecord) (passphrase : option jsstring)
  (st : Storage.state)
  : completion result * Storage.state * list event :=
  let '(token, st) := Storage.getToken passphrase st in
  if negb (truthy token)
  then (Throws (lit "Not authenticated. Please log in."), st, [])
  else
    let endpoint := Storage.capsuleEndpoint st in
    if negb (truthy endpoint)
    then (Throws (lit "Capsule endpoint not configured."), st, [])
    else
      let '(res, trace) :=
        send_batches net (or_empty endpoint) (or_empty token) students
          (fun i status text =>
             lit "Batch " ++ batch_number i ++ lit ": HTTP " ++ decimal status
             ++ [32; 8212; 32]%N
             ++ match text with Some body => body | None => lit "unknown" end)
          (fun i message => lit "Batch " ++ batch_number i ++ lit ": " ++ message)
          true in
      (Returns res, st, trace).

(** The service worker's [decryptToken], a copy of [decrypt]. *)
Definition decryptToken (encrypted passphrase : jsstring) : option jsstring :=
  match atob encrypted with
  | None => None
  | Some raw =>
      let salt := firstn 16 raw in
      let iv := firstn 12 (skipn 16 raw) in
      let ciphertext := skipn (16 + 12) raw in
      let key := pbkdf2_key (Sha256.utf8 passphrase) salt 100000%N 256%N in
      match aes_gcm_decrypt key iv ciphertext with
      | None => None
      | Some plain => Some (text_decode plain)
      end
  end.

(** [pushToCapsule(students, passphrase)] of the service worker. *)
Definition pushToCapsule (net : nat -> request -> fetch_outcome)
  (students : list StudentRecord) (passphrase : jsstring)
  (st : Storage.state) : result * list event :=
  if negb (truthy (Storage.capsule_endpoint st))
     || negb (truthy (Storage.encrypted_token st))
  then (mkResult 0 (length students)
          [lit "Not configured. Set Capsule endpoint in settings."], [])
  else
    match decryptToken (or_empty (Storage.encrypted_token st)) passphrase with
    | None => (mkResult 0 (length students) [lit "Invalid passphrase"], [])
    | Some token =>
        send_batches net (or_empty (Storage.capsule_endpoint st)) token students
          (fun _ status text =>
             lit "HTTP " ++ decimal status ++ lit ": "
             ++ firstn 200 (match text with Some body => body | None => [] end))
          (fun _ message => message)
          false
    end.

End with_platform.
End Sync.

(** ** CSV export parser (content/parsers, CSV export) *)

Module Csv.
Import JS Model.

(** The record fields a column can be mapped to. *)
Inductive field :=
| SourcedId | LastName | FirstName | GradeLevel | HomeRoom
| EnrollStatus | Email | SchoolId | Dob | Gender.

(** Column header → field mapping for PowerSchool CSV exports. *)
Definition CSV_COLUMN_MAP : list (string * field) :=
  [ ("student_number", SourcedId); ("studentnumber", SourcedId);
    ("student number", SourcedId); ("id", SourcedId);
    ("student_id", SourcedId); ("dcid", SourcedId);
    ("last_name", LastName); ("lastname", LastName);
    ("last name", LastName); ("last", LastName);
    ("first_name", FirstName); ("firstname", FirstName);
    ("first name", FirstName); ("first", FirstName);
    ("grade_level", GradeLevel); ("gradelevel", GradeLevel);
    ("grade level", GradeLevel); ("grade", GradeLevel); ("gr", GradeLevel);
    ("home_room", HomeRoom); ("homeroom", HomeRoom);
    ("home room", HomeRoom); ("hr", HomeRoom); ("section", HomeRoom);
    ("enroll_status", EnrollStatus); ("enrollstatus", EnrollStatus);
    ("enrollment_status", EnrollStatus); ("status", EnrollStatus);
    ("student_email", Email); ("email", Email); ("email_addr", Email);
    ("schoolid", SchoolId); ("school_id", SchoolId); ("school", SchoolId);
    ("dob", Dob); ("date_of_birth", Dob); ("dateofbirth", Dob);
    ("gender", Gender); ("sex", Gender) ].

Definition nonempty {A} (l : list A) : bool :=
  match l with
  | [] => false
  | _ :: _ => true
  end.

Definition QUOTE : N := 34.
Definition COMMA : N := 44.
Definition LF : N := 10.
Definition CR : N := 13.

(** The state of the scanning loop of [parseCSV]: the rows yielded so far
    ([parseCSV._rows]), the fields of the current row ([lines]), the field
    being read ([current]) and the quote flag. *)
Record scanner := mkScanner {
  rows_out : list (list jsstring);
  lines : list jsstring;
  current : jsstring;
  inQuotes : bool
}.

(** What an unquoted line break does to the state. *)
Definition end_of_line (s : scanner) : scanner :=
  let s1 :=
    if nonempty (current s) || nonempty (lines s)
    then mkScanner (rows_out s) (lines s ++ [current s]) [] (inQuotes s)
    else s in
  if nonempty (lines s1)
  then mkScanner (rows_out s1 ++ [lines s1]) [] (current s1) (inQuotes s1)
  else s1.

(** The loop over the characters of [csv]; where the source advances [i]
    past a second character the recursion continues two characters on. *)
Fixpoint scan (csv : jsstring) (s : scanner) : scanner :=
  match csv with
  | [] => s
  | ch :: rest =>
      if (ch =? QUOTE)%N then
        match rest with
        | next :: rest' =>
            if inQuotes s && (next =? QUOTE)%N
            then scan rest' (mkScanner (rows_out s) (lines s) (current s ++ [QUOTE]) (inQuotes s))
            else scan rest (mkScanner (rows_out s) (lines s) (current s) (negb (inQuotes s)))
        | [] => scan rest (mkScanner (rows_out s) (lines s) (current s) (negb (inQuotes s)))
        end
      else if (ch =? COMMA)%N && negb (inQuotes s) then
        scan rest (mkScanner (rows_out s) (lines s ++ [current s]) [] (inQuotes s))
      else if ((ch =? LF)%N || (ch =? CR)%N) && negb (inQuotes s) then
        match rest with
        | next :: rest' =>
            if (ch =? CR)%N && (next =? LF)%N
            then scan rest' (end_of_line s)
            else scan rest (end_of_line s)
        | [] => scan rest (end_of_line s)
        end
      else scan rest (mkScanner (rows_out s) (lines s) (current s ++ [ch]) (inQuotes s))
  end.

(** All rows of the text, the header row included. *)
Definition all_rows (csv : jsstring) : list (list jsstring) :=
  let s := scan csv (mkScanner [] [] [] false) in
  if nonempty (current s) || nonempty (lines s)
  then rows_out s ++ [lines s ++ [current s]]
  else rows_out s.

(** [parseCSV(csv)]: the pair [(headers, rows)]. *)
Definition parseCSV (csv : jsstring) : list jsstring * list (list jsstring) :=
  match all_rows csv with
  | [] => ([], [])
  | first :: rest => (map trim first, rest)
  end.

Fixpoint lookup_column (table : list (string * field)) (normalized : jsstring)
  : option field :=
  match table with
  | [] => None
  | (key, f) :: rest =>
      if bool_decide (lit key = normalized) then Some f
      else lookup_column rest normalized
  end.

(** [mapCSVHeaders(headers)]: the column indices that map to a field, in
    increasing order (the order [Object.entries] visits integer keys). *)
Fixpoint map_headers_from (i : nat) (headers : list jsstring) : list (nat * field) :=
  match headers with
  | [] => []
  | h :: rest =>
      match lookup_column CSV_COLUMN_MAP (trim (toLowerCase h)) with
      | Some f => (i, f) :: map_headers_from (S i) rest
      | None => map_headers_from (S i) rest
      end
  end.

Definition mapCSVHeaders (headers : list jsstring) : list (nat * field) :=
  map_headers_from 0 headers.

(** [Partial<StudentRecord>]: the record under construction. *)
Record partial := mkPartial {
  p_sourcedId : option jsstring;
  p_lastName : option jsstring;
  p_firstName : option jsstring;
  p_gradeLevel : option jsstring;
  p_homeRoom : option jsstring;
  p_enrollStatus : option jsstring;
  p_email : option jsstring;
  p_schoolId : option jsstring;
  p_dob : option jsstring;
  p_gender : option jsstring;
  p_extra : gmap jsstring jsstring
}.

Definition empty_partial : partial :=
  mkPartial None None None None None None None None None None ∅.

(** [record[field] = val]. *)
Definition set_field (f : field) (v : jsstring) (r : partial) : partial :=
  match f with
  | SourcedId => mkPartial (Some v) (p_lastName r) (p_firstName r) (p_gradeLevel r) (p_homeRoom r) (p_enrollStatus r) (p_email r) (p_schoolId r) (p_dob r) (p_gender r) (p_extra r)
  | LastName => mkPartial (p_sourcedId r) (Some v) (p_firstName r) (p_gradeLevel r) (p_homeRoom r) (p_enrollStatus r) (p_email r) (p_schoolId r) (p_dob r) (p_gender r) (p_extra r)
  | FirstName => mkPartial (p_sourcedId r) (p_lastName r) (Some v) (p_gradeLevel r) (p_homeRoom r) (p_enrollStatus r) (p_email r) (p_schoolId r) (p_dob r) (p_gender r) (p_extra r)
  | GradeLevel => mkPartial (p_sourcedId r) (p_lastName r) (p_firstName r) (Some v) (p_homeRoom r) (p_enrollStatus r) (p_email r) (p_schoolId r) (p_dob r) (p_gender r) (p_extra r)
  | HomeRoom => mkPartial (p_sourcedId r) (p_lastName r) (p_firstName r) (p_gradeLevel r) (Some v) (p_enrollStatus r) (p_email r) (p_schoolId r) (p_dob r) (p_gender r) (p_extra r)
  | EnrollStatus => mkPartial (p_sourcedId r) (p_lastName r) (p_firstName r) (p_gradeLevel r) (p_homeRoom r) (Some v) (p_email r) (p_schoolId r) (p_dob r) (p_gender r) (p_extra r)
  | Email => mkPartial (p_sourcedId r) (p_lastName r) (p_firstName r) (p_gradeLevel r) (p_homeRoom r) (p_enrollStatus r) (Some v) (p_schoolId r) (p_dob r) (p_gender r) (p_extra r)
  | SchoolId => mkPartial (p_sourcedId r) (p_lastName r) (p_firstName r) (p_gradeLevel r) (p_homeRoom r) (p_enrollStatus r) (p_email r) (Some v) (p_dob r) (p_gender r) (p_extra r)
  | Dob => mkPartial (p_sourcedId r) (p_lastName r) (p_firstName r) (p_gradeLevel r) (p_homeRoom r) (p_enrollStatus r) (p_email r) (p_schoolId r) (Some v) (p_gender r) (p_extra r)
  | Gender => mkPartial (p_sourcedId r) (p_lastName r) (p_firstName r) (p_gradeLevel r) (p_homeRoom r) (p_enrollStatus r) (p_email r) (p_schoolId r) (p_dob r) (Some v) (p_extra r)
  end.

Definition set_extra (k v : jsstring) (r : partial) : partial :=
  mkPartial (p_sourcedId r) (p_lastName r) (p_firstName r) (p_gradeLevel r)
    (p_homeRoom r) (p_enrollStatus r) (p_email r) (p_schoolId r) (p_dob r)
    (p_gender r) (<[k := v]> (p_extra r)).

(** The finished record, once it has an id. *)
Definition complete (id : jsstring) (r : partial) : StudentRecord :=
  mkStudent id (p_firstName r) (p_lastName r) (p_gradeLevel r) (p_homeRoom r)
    (p_enrollStatus r) (p_email r) (p_schoolId r) (p_dob r) (p_gender r)
    (p_extra r).

(** [row[i]], [undefined] out of range. *)
Definition cell (row : list jsstring) (i : nat) : option jsstring := row !! i.

(** The first inner loop: the mapped columns. *)
Definition fill_mapped (mapping : list (nat * field)) (row : list jsstring)
  (record : partial) : partial :=
  fold_left
    (fun record '(colIdx, f) =>
       let val := trim (or_empty (cell row colIdx)) in
       if nonempty val then set_field f val record else record)
    mapping record.

Definition is_mapped (mapping : list (nat * field)) (i : nat) : bool :=
  existsb (fun '(j, _) => Nat.eqb i j) mapping.

(** The second inner loop: the unmapped columns go to [extra]. *)
Fixpoint fill_extra_from (i : nat) (headers : list jsstring)
  (mapping : list (nat * field)) (row : list jsstring) (record : partial)
  : partial :=
  match headers with
  | [] => record
  | h :: rest =>
      let record' :=
        if negb (is_mapped mapping i) && truthy (cell row i)
           && nonempty (trim (or_empty (cell row i)))
        then set_extra h (trim (or_empty (cell row i))) record
        else record in
      fill_extra_from (S i) rest mapping row record'
  end.

(** The fallback id of the CSV parser. *)
Definition synthesize_id (record : partial) : jsstring :=
  lit "ps_" ++ toLowerCase (or_empty (p_lastName record)) ++ lit "_"
  ++ toLowerCase (or_empty (p_firstName record)).

(** The body of the loop over the data rows: the record a row contributes,
    if any. *)
Definition parse_row (headers : list jsstring) (mapping : list (nat * field))
  (row : list jsstring) : option StudentRecord :=
  if negb (nonempty row) || forallb (fun c => negb (nonempty (trim c))) row
  then None
  else
    let record := fill_mapped mapping row empty_partial in
    let record := fill_extra_from 0 headers mapping row record in
    if truthy (p_firstName record) || truthy (p_lastName record) then
      if negb (truthy (p_sourcedId record))
      then Some (complete (synthesize_id record) record)
      else Some (complete (or_empty (p_sourcedId record)) record)
    else None.

(** [csvText.replace(/^\xEF\xBB\xBF/, '')]: the pattern is the three code
    units U+00EF U+00BB U+00BF. *)
Definition strip_bom (csvText : jsstring) : jsstring :=
  match csvText with
  | 239%N :: 187%N :: 191%N :: rest => rest
  | _ => csvText
  end.

Definition parseExportCSV (csvText : jsstring) : list StudentRecord :=
  let clean := strip_bom csvText in
  let '(headers, rows) := parseCSV clean in
  if negb (nonempty headers) || negb (nonempty rows) then []
  else
    let mapping := mapCSVHeaders headers in
    if negb (nonempty mapping) then []
    else omap (parse_row headers mapping) rows.

(** The byte order mark as one code unit. *)
Definition BOM : N := 65279.

End Csv.

(** ** Regular expressions

    The fragment of JavaScript regular expressions the modelled patterns
    use: literals, [.], [\d], [?], alternation, groups and the anchors,
    matched case-insensitively (flag [i]) by backtracking.  A pattern is
    kept as its source text and compiled by [compile]. *)

Module Regex.
Import JS.

Inductive re :=
| Eps
| Bol
| Eol
| Chr (c : N)
| Any
| Digit
| Seq (a b : re)
| Alt (a b : re)
| Opt (a : re).

(** Canonicalization under flag [i] for patterns whose letters are ASCII:
    a code unit outside ASCII never equals an ASCII one. *)
Definition upper_unit (c : N) : N :=
  if ((97 <=? c) && (c <=? 122))%N then (c - 32)%N else c.

Definition same_unit (a b : N) : bool := (upper_unit a =? upper_unit b)%N.

(** [run r pos s k]: the first way, in backtracking order, in which [r]
    matches a prefix of [s] (the subject from offset [pos] on) and [k]
    accepts what follows. *)
Fixpoint run {A} (r : re) (pos : nat) (s : jsstring)
  (k : nat -> jsstring -> option A) : option A :=
  match r with
  | Eps => k pos s
  | Bol => if Nat.eqb pos 0 then k pos s else None
  | Eol => match s with [] => k pos s | _ => None end
  | Chr c =>
      match s with
      | x :: rest => if same_unit x c then k (S pos) rest else None
      | [] => None
      end
  | Any =>
      match s with
      | x :: rest => if is_line_terminator x then None else k (S pos) rest
      | [] => None
      end
  | Digit =>
      match s with
      | x :: rest => if is_digit x then k (S pos) rest else None
      | [] => None
      end
  | Seq a b => run a pos s (fun pos' s' => run b pos' s' k)
  | Alt a b =>
      match run a pos s k with
      | Some v => Some v
      | None => run b pos s k
      end
  | Opt a =>
      match run a pos s k with
      | Some v => Some v
      | None => k pos s
      end
  end.

(** The leftmost match: the first offset at which [run] succeeds. *)
Fixpoint search {A} (r : re) (pos : nat) (s : jsstring)
  (k : nat -> jsstring -> option A) : option A :=
  match run r pos s k with
  | Some v => Some v
  | None =>
      match s with
      | [] => None
      | _ :: rest => search r (S pos) rest k
      end
  end.

(** Pattern source to [re]: alternation of sequences of atoms, an atom being
    [.], [^], [$], a group, an escape or a literal, possibly followed
    by [?]. *)
Fixpoint parse_alt (fuel : nat) (p : jsstring) : re * jsstring :=
  match fuel with
  | O => (Eps, p)
  | S fuel' =>
      let '(a, rest) := parse_seq fuel' p in
      match rest with
      | 124%N :: rest' =>
          let '(b, rest'') := parse_alt fuel' rest' in (Alt a b, rest'')
      | _ => (a, rest)
      end
  end
with parse_seq (fuel : nat) (p : jsstring) : re * jsstring :=
  match fuel with
  | O => (Eps, p)
  | S fuel' =>
      match p with
      | [] => (Eps, p)
      | 41%N :: _ => (Eps, p)
      | 124%N :: _ => (Eps, p)
      | _ =>
          let '(a, rest) := parse_atom fuel' p in
          let '(a, rest) :=
            match rest with
            | 63%N :: rest' => (Opt a, rest')
            | _ => (a, rest)
            end in
          let '(b, rest) := parse_seq fuel' rest in
          (Seq a b, rest)
      end
  end
with parse_atom (fuel : nat) (p : jsstring) : re * jsstring :=
  match fuel with
  | O => (Eps, p)
  | S fuel' =>
      match p with
      | [] => (Eps, p)
      | 46%N :: rest => (Any, rest)
      | 94%N :: rest => (Bol, rest)
      | 36%N :: rest => (Eol, rest)
      | 92%N :: 100%N :: rest => (Digit, rest)
      | 92%N :: c :: rest => (Chr c, rest)
      | 40%N :: 63%N :: 58%N :: rest =>
          let '(a, rest') := parse_alt fuel' rest in (a, tail rest')
      | 40%N :: rest =>
          let '(a, rest') := parse_alt fuel' rest in (a, tail rest')
      | c :: rest => (Chr c, rest)
      end
  end.

Definition compile (source : string) : re :=
  fst (parse_alt (3 * String.length source + 3) (lit source)).

(** [/source/i.test(text)]. *)
Definition test (source : string) (text : jsstring) : bool :=
  match search (compile source) 0 text (fun _ _ => Some tt) with
  | Some _ => true
  | None => false
  end.

(** [text.match(/prefix(\d+)/i)]: group 1 of the leftmost match, the
    longest run of digits after the prefix. *)
Definition match_digits (prefix : string) (text : jsstring) : option jsstring :=
  search (compile prefix) 0 text
    (fun _ rest =>
       match take_while is_digit rest with
       | [] => None
       | digits => Some digits
       end).

End Regex.

(** ** Roster parser (content/parsers/roster.js) *)

Module Roster.
Import JS Model.

Record name_parts := mkName {
  given : jsstring;   (* firstName *)
  family : jsstring   (* lastName *)
}.

(** [parseName(cell)], on the cell's [textContent]. *)
Definition parseName (textContent : jsstring) : name_parts :=
  let text := trim textContent in
  if includes Csv.COMMA text then
    let pieces := map trim (split Csv.COMMA text) in
    let last := pieces !! 0%nat in
    let first := pieces !! 1%nat in
    mkName (or_empty first) (or_empty last)
  else
    let parts := split_ws text in
    if (2 <=? length parts)%nat
    then mkName (or_empty (parts !! 0%nat)) (join (lit " ") (skipn 1 parts))
    else mkName text [].

(** Known PowerSchool roster table selectors (multiple versions). *)
Definition TABLE_SELECTORS : list string :=
  ["table.linkDescList"; "table#studentsTable"; "table.grid";
   "#content-main table"; ".box-round table"].

(** Known column header patterns → field mapping. *)
Definition COLUMN_PATTERNS : list (Csv.field * string) :=
  [ (Csv.SourcedId, "^(student.?(?:number|id)|id|sis.?id|sourcedid)$");
    (Csv.LastName, "^(last.?name|surname|family.?name)$");
    (Csv.FirstName, "^(first.?name|given.?name|preferred.?name)$");
    (Csv.GradeLevel, "^(grade|gr|grade.?level|year)$");
    (Csv.HomeRoom, "^(home.?room|hr|section|room)$");
    (Csv.EnrollStatus, "^(status|enroll.?status|enrollment)$");
    (Csv.Email, "^(email|e-mail|student.?email)$");
    (Csv.Gender, "^(gender|sex)$");
    (Csv.Dob, "^(dob|date.?of.?birth|birth.?date|birthday)$") ].

(** A table cell: its text and the [href] of the first link in it. *)
Record cell := mkCell {
  textContent : jsstring;
  href : option jsstring
}.

(** The page, as the parser reads it: what [document.querySelector] finds
    for a selector, and all tables in document order; a table is the list
    of its rows, a row the list of its cells. *)
Record page := mkPage {
  querySelector : string -> option (list (list cell));
  all_tables : list (list (list cell))
}.

Fixpoint first_selected (pg : page) (selectors : list string)
  : option (list (list cell)) :=
  match selectors with
  | [] => None
  | sel :: rest =>
      match querySelector pg sel with
      | Some el => Some el
      | None => first_selected pg rest
      end
  end.

(** The head of the tables sorted by decreasing row count (the sort is
    stable): the first table with the most rows. *)
Fixpoint largest (best : option (list (list cell))) (ts : list (list (list cell)))
  : option (list (list cell)) :=
  match ts with
  | [] => best
  | t :: rest =>
      largest (match best with
               | Some b => if (length b <? length t)%nat then Some t else Some b
               | None => Some t
               end) rest
  end.

Definition findTable (pg : page) : option (list (list cell)) :=
  match first_selected pg TABLE_SELECTORS with
  | Some el => Some el
  | None =>
      largest None (List.filter (fun t => (3 <? length t)%nat) (all_tables pg))
  end.

(** What a column feeds: a record field, or the combined name. *)
Inductive column :=
| Field (f : Csv.field)
| CombinedName.

Fixpoint first_pattern (patterns : list (Csv.field * string)) (text : jsstring)
  : option Csv.field :=
  match patterns with
  | [] => None
  | (f, pattern) :: rest =>
      if Regex.test pattern text then Some f else first_pattern rest text
  end.

(** [mapHeaders(headerRow)], by increasing column index. *)
Fixpoint map_headers_from (i : nat) (cells : list cell) : list (nat * column) :=
  match cells with
  | [] => []
  | c :: rest =>
      match first_pattern COLUMN_PATTERNS (trim (textContent c)) with
      | Some f => (i, Field f) :: map_headers_from (S i) rest
      | None => map_headers_from (S i) rest
      end
  end.

Definition mapHeaders (headerRow : list cell) : list (nat * column) :=
  map_headers_from 0 headerRow.

(** [headerMap[i] = c], the entries staying in increasing index order. *)
Fixpoint set_column (i : nat) (c : column) (m : list (nat * column))
  : list (nat * column) :=
  match m with
  | [] => [(i, c)]
  | (j, d) :: rest =>
      if (i <? j)%nat then (i, c) :: m
      else if (i =? j)%nat then (i, c) :: rest
      else (j, d) :: set_column i c rest
  end.

(** The index of the first header cell that names the student. *)
Fixpoint find_name_column (i : nat) (cells : list cell) : option nat :=
  match cells with
  | [] => None
  | c :: rest =>
      if Regex.test "^(name|student.?name|student)$" (trim (textContent c))
      then Some i
      else find_name_column (S i) rest
  end.

(** [extractId(cell)]. *)
Definition extractId (c : cell) : jsstring :=
  match href c with
  | Some h =>
      match Regex.match_digits "(?:student(?:id|_id|\.id)?|frn|id)=" h with
      | Some id => id
      | None =>
          match Regex.match_digits "\/students\/" h with
          | Some id => id
          | None => trim (textContent c)
          end
      end
  | None => trim (textContent c)
  end.

(** One pass of the loop over the mapped columns of a data row. *)
Definition fill_column (cells : list cell) (acc : Csv.partial * bool)
  (entry : nat * column) : Csv.partial * bool :=
  let '(record, hasData) := acc in
  let '(colIdx, col) := entry in
  match cells !! colIdx with
  | None => acc
  | Some c =>
      match col with
      | CombinedName =>
          let name := parseName (textContent c) in
          let record := Csv.set_field Csv.FirstName (given name) record in
          let record := Csv.set_field Csv.LastName (family name) record in
          let record :=
            if negb (truthy (Csv.p_sourcedId record)) then
              let id := extractId c in
              if Csv.nonempty id && Regex.test "\d" id
              then Csv.set_field Csv.SourcedId id record
              else record
            else record in
          (record, true)
      | Field Csv.SourcedId =>
          (Csv.set_field Csv.SourcedId (extractId c) record, true)
      | Field f =>
          let val := trim (textContent c) in
          if Csv.nonempty val then (Csv.set_field f val record, true)
          else (record, hasData)
      end
  end.

(** The fallback id of the roster parser, for the row of index [r]. *)
Definition synthesize_id (record : Csv.partial) (r : nat) : jsstring :=
  lit "ps_" ++ toLowerCase (or_empty (Csv.p_lastName record)) ++ lit "_"
  ++ toLowerCase (or_empty (Csv.p_firstName record)) ++ lit "_"
  ++ decimal (N.of_nat r).

(** The record the row of index [r] contributes, if any. *)
Definition roster_row (headerMap : list (nat * column)) (r : nat)
  (cells : list cell) : option StudentRecord :=
  if negb (Csv.nonempty cells) then None
  else
    let '(record, hasData) :=
      fold_left (fill_column cells) headerMap (Csv.empty_partial, false) in
    if hasData
       && (truthy (Csv.p_firstName record) || truthy (Csv.p_lastName record))
    then
      if negb (truthy (Csv.p_sourcedId record))
      then Some (Csv.complete (synthesize_id record r) record)
      else Some (Csv.complete (or_empty (Csv.p_sourcedId record)) record)
    else None.

(** The loop over the data rows, from the row of index [r] on. *)
Fixpoint roster_rows (headerMap : list (nat * column)) (r : nat)
  (rows : list (list cell)) : list StudentRecord :=
  match rows with
  | [] => []
  | cells :: rest =>
      match roster_row headerMap r cells with
      | Some record => record :: roster_rows headerMap (S r) rest
      | None => roster_rows headerMap (S r) rest
      end
  end.

Definition is_name_column (c : column) : bool :=
  match c with
  | Field Csv.FirstName | Field Csv.LastName => true
  | _ => false
  end.

(** [parseRoster()], on the page it reads. *)
Definition parseRoster (pg : page) : list StudentRecord :=
  match findTable pg with
  | None => []
  | Some rows =>
      if (length rows <? 2)%nat then []
      else
        let first := mapHeaders (default [] (rows !! 0%nat)) in
        let '(headerIdx, headerMap) :=
          if negb (Csv.nonempty first) && (1 <? length rows)%nat
          then (1%nat, mapHeaders (default [] (rows !! 1%nat)))
          else (0%nat, first) in
        let hasName := existsb (fun e => is_name_column (snd e)) headerMap in
        let headerMap :=
          if negb hasName then
            match find_name_column 0 (default [] (rows !! headerIdx)) with
            | Some i => set_column i CombinedName headerMap
            | None => headerMap
            end
          else headerMap in
        if negb (Csv.nonempty headerMap) then []
        else roster_rows headerMap (headerIdx + 1) (skipn (headerIdx + 1) rows)
  end.

End Roster.

(** ** Detail crawler (content/crawler.js) *)

Module Crawler.
Import JS Model.

Definition CRAWL_DELAY_MS : N := 800.
Definition PROFILE_TIMEOUT_MS : N := 10000.

(** Known field patterns for scraping student profile pages, in the order
    [Object.entries] visits them. *)
Definition PROFILE_FIELD_PATTERNS : list (string * string) :=
  [ ("sourcedId", "^(student.?(?:number|id)|sis.?id|id.?number|perm.?id|dcid)$");
    ("firstName", "^(first.?name|legal.?first|preferred.?name)$");
    ("lastName", "^(last.?name|legal.?last|surname)$");
    ("dob", "^(date.?of.?birth|dob|birth.?date|birthday)$");
    ("gender", "^(gender|sex)$");
    ("ethnicity", "^(ethnicity|race|ethnic)$");
    ("language", "^(home.?language|primary.?language|language|ell)$");
    ("gradeLevel", "^(grade|grade.?level|gr|current.?grade)$");
    ("address", "^(address|home.?address|street|mailing.?address|residence)$");
    ("phone", "^(phone|home.?phone|student.?phone|cell)$");
    ("email", "^(email|student.?email|e.?mail)$");
    ("guardianName", "^(parent|guardian|mother|father|parent.?(?:1|name)|guardian.?name|emergency.?1.?name|custodial)$");
    ("guardianEmail", "^(parent.?email|guardian.?email|family.?email)$");
    ("guardianPhone", "^(parent.?phone|guardian.?phone|home.?phone|family.?phone|mother.?phone|father.?phone)$");
    ("emergencyContact", "^(emergency.?contact|emergency.?name|emergency.?(?:2|3))$");
    ("emergencyPhone", "^(emergency.?phone|emergency.?(?:2|3).?phone)$");
    ("homeRoom", "^(home.?room|homeroom|hr|advisory|section)$");
    ("schoolId", "^(school|building|campus|school.?name)$");
    ("enrollStatus", "^(enroll.?status|status|enrollment|active)$");
    ("enrollDate", "^(enroll.?date|entry.?date|admission.?date)$");
    ("exitDate", "^(exit.?date|withdrawal.?date|leave.?date)$");
    ("gpa", "^(gpa|cumulative.?gpa|grade.?point|weighted.?gpa)$");
    ("credits", "^(credits|total.?credits|earned.?credits)$");
    ("iep", "^(iep|special.?ed|sped|individualized|504.?plan|section.?504)$");
    ("section504", "^(504|section.?504|accommodation)$");
    ("lunchStatus", "^(lunch|free.?(?:reduced)?|meal.?status|frl)$");
    ("transportation", "^(transport|bus|transportation|route)$") ].

(** [DeepStudentRecord]: the scalar properties by name, and the two
    dictionaries. *)
Record DeepStudentRecord := mkDeep {
  props : gmap string jsstring;
  d_extra : gmap jsstring jsstring;
  schedule : gmap jsstring jsstring
}.

(** *** The document, as the scraper reads it

    Each element carries what the scraper reads from it; the document
    carries the element lists its selectors return, in document order. *)

Record row := mkRow {
  cells : list jsstring;       (* textContent of row.cells *)
  first_th : option jsstring;  (* textContent of row.querySelector('th') *)
  first_td : option jsstring   (* textContent of row.querySelector('td') *)
}.

Record dl := mkDl { dts : list jsstring; dds : list jsstring }.

Record control := mkControl {
  value : option jsstring;     (* .value, undefined on non-form elements *)
  text : jsstring              (* textContent *)
}.

Record label := mkLabel {
  label_text : jsstring;
  next_sibling : option jsstring;  (* textContent of nextElementSibling *)
  for_id : option jsstring         (* getAttribute('for') *)
}.

Inductive element :=
| TABLE (rows : list row)
| OTHER.

Record heading := mkHeading {
  heading_text : jsstring;
  siblings : list element        (* the nextElementSibling chain *)
}.

(** What [doc.querySelector] with an interpolated selector does. *)
Inductive selected :=
| SyntaxError
| NoMatch
| Match (textContent : jsstring).

Record input := mkInput {
  ctl : control;
  id_or_name : option jsstring;    (* input.id || input.getAttribute('name') *)
  parent_label : option jsstring   (* label inside the closest field wrapper *)
}.

Record document := mkDocument {
  tables : list (list row);
  dls : list dl;
  labels : list label;
  headings : list heading;
  inputs : list input;
  name_element : option jsstring;
  getElementById : jsstring -> option control;
  label_for : jsstring -> selected   (* querySelector(`label[for="${id}"]`) *)
}.

(** [input.value || (input.textContent || '').trim()]. *)
Definition control_value (c : control) : jsstring :=
  if truthy (value c) then or_empty (value c) else trim (text c).

(** [label.replace(/[:\s*]+$/, '')]. *)
Definition is_label_tail (c : N) : bool :=
  (c =? 58)%N || is_space c || (c =? 42)%N.

Definition strip_label_tail (label : jsstring) : jsstring :=
  rev (drop_while is_label_tail (rev label)).

Definition set_prop (f : string) (v : jsstring) (record : DeepStudentRecord)
  : DeepStudentRecord :=
  mkDeep (<[f := v]> (props record)) (d_extra record) (schedule record).

(** The loop over the patterns in [processLabelValue]. *)
Fixpoint match_field (patterns : list (string * string)) (cleanLabel : jsstring)
  : option string :=
  match patterns with
  | [] => None
  | (f, pattern) :: rest =>
      if Regex.test pattern cleanLabel then Some f
      else match_field rest cleanLabel
  end.

(** [processLabelValue(label, value, record)]. *)
Definition processLabelValue (label value : jsstring)
  (record : DeepStudentRecord) : DeepStudentRecord :=
  if negb (Csv.nonempty label) || negb (Csv.nonempty value)
     || (500 <? length value)%nat
  then record
  else
    let cleanLabel := trim (strip_label_tail label) in
    if negb (Csv.nonempty cleanLabel) then record
    else
      match match_field PROFILE_FIELD_PATTERNS cleanLabel with
      | Some f =>
          if negb (truthy (props record !! f)) then set_prop f value record
          else record
      | None =>
          mkDeep (props record) (<[cleanLabel := value]> (d_extra record))
                 (schedule record)
      end.

(** Strategy 1: label/value pairs in tables. *)
Definition scrape_row (record : DeepStudentRecord) (r : row) : DeepStudentRecord :=
  let record :=
    match cells r with
    | c0 :: c1 :: _ => processLabelValue (trim c0) (trim c1) record
    | _ => record
    end in
  match first_th r, first_td r with
  | Some th, Some td => processLabelValue (trim th) (trim td) record
  | _, _ => record
  end.

Definition scrape_tables (doc : document) (record : DeepStudentRecord)
  : DeepStudentRecord :=
  fold_left (fun record table => fold_left scrape_row table record)
    (tables doc) record.

(** Strategy 2: definition lists. *)
Definition scrape_dl (record : DeepStudentRecord) (d : dl) : DeepStudentRecord :=
  fold_left
    (fun record '(dt, dd) => processLabelValue (trim dt) (trim dd) record)
    (combine (dts d) (dds d)) record.

Definition scrape_dls (doc : document) (record : DeepStudentRecord)
  : DeepStudentRecord :=
  fold_left scrape_dl (dls doc) record.

(** Strategy 3: label and adjacent element. *)
Definition scrape_label (doc : document) (record : DeepStudentRecord) (l : label)
  : DeepStudentRecord :=
  let labelText := trim (label_text l) in
  let record :=
    match next_sibling l with
    | Some next =>
        let value := trim next in
        if Csv.nonempty value && (length value <? 500)%nat
        then processLabelValue labelText value record
        else record
    | None => record
    end in
  if truthy (for_id l) then
    match getElementById doc (or_empty (for_id l)) with
    | Some input =>
        let value := control_value input in
        if Csv.nonempty value then processLabelValue labelText value record
        else record
    | None => record
    end
  else record.

Definition scrape_labels (doc : document) (record : DeepStudentRecord)
  : DeepStudentRecord :=
  fold_left (scrape_label doc) (labels doc) record.

(** [parseScheduleSection(heading, record)]: the first table among the
    next five siblings. *)
Definition schedule_row (record : DeepStudentRecord) (r : row) : DeepStudentRecord :=
  match cells r with
  | c0 :: c1 :: _ =>
      let period := trim c0 in
      let className := trim c1 in
      if Csv.nonempty period && Csv.nonempty className
         && negb (Regex.test "^(period|time|class)" period)
      then mkDeep (props record) (d_extra record)
             (<[period := className]> (schedule record))
      else record
  | _ => record
  end.

Fixpoint schedule_scan (attempts : nat) (el : list element)
  (record : DeepStudentRecord) : DeepStudentRecord :=
  match attempts, el with
  | S attempts', TABLE rows :: _ => fold_left schedule_row rows record
  | S attempts', OTHER :: rest => schedule_scan attempts' rest record
  | _, _ => record
  end.

Definition parseScheduleSection (h : heading) (record : DeepStudentRecord)
  : DeepStudentRecord :=
  schedule_scan 5 (siblings h) record.

(** Strategy 4: headings. *)
Definition scrape_heading (record : DeepStudentRecord) (h : heading)
  : DeepStudentRecord :=
  let section := toLowerCase (trim (heading_text h)) in
  if Regex.test "schedule|classes|courses|period" section
  then parseScheduleSection h record
  else record.

Definition scrape_headings (doc : document) (record : DeepStudentRecord)
  : DeepStudentRecord :=
  fold_left scrape_heading (headings doc) record.

(** Strategy 5: read-only input fields.  The interpolated selector may be
    rejected by the document, which throws. *)
Definition scrape_input (doc : document) (record : DeepStudentRecord) (i : input)
  : completion DeepStudentRecord :=
  let value := control_value (ctl i) in
  if negb (Csv.nonempty value) then Returns record
  else
    let by_parent :=
      match parent_label i with
      | Some l => processLabelValue (trim l) value record
      | None => record
      end in
    if truthy (id_or_name i) then
      match label_for doc (or_empty (id_or_name i)) with
      | SyntaxError => Throws (lit "SyntaxError")
      | Match l => Returns (processLabelValue (trim l) value record)
      | NoMatch => Returns by_parent
      end
    else Returns by_parent.

Fixpoint scrape_inputs_from (doc : document) (l : list input)
  (record : DeepStudentRecord) : completion DeepStudentRecord :=
  match l with
  | [] => Returns record
  | i :: rest =>
      match scrape_input doc record i with
      | Returns record' => scrape_inputs_from doc rest record'
      | Throws e => Throws e
      end
  end.

Definition scrape_inputs (doc : document) (record : DeepStudentRecord)
  : completion DeepStudentRecord :=
  scrape_inputs_from doc (inputs doc) record.

(** The name taken from the page header when no strategy found one. *)
Definition name_fallback (doc : document) (record : DeepStudentRecord)
  : DeepStudentRecord :=
  if negb (truthy (props record !! "firstName"))
     && negb (truthy (props record !! "lastName"))
  then
    match name_element doc with
    | Some nameText =>
        let text := trim nameText in
        if includes Csv.COMMA text then
          let pieces := map trim (split Csv.COMMA text) in
          let record :=
            match pieces !! 1%nat with
            | Some first => set_prop "firstName" first record
            | None => record
            end in
          match pieces !! 0%nat with
          | Some last => set_prop "lastName" last record
          | None => record
          end
        else
          let parts := split_ws text in
          let record := set_prop "firstName" (or_empty (parts !! 0%nat)) record in
          set_prop "lastName" (join (lit " ") (skipn 1 parts)) record
    | None => record
    end
  else record.

(** [scrapeProfilePage(doc, sourcedId)]. *)
Definition initial_record (sourcedId : jsstring) : DeepStudentRecord :=
  mkDeep {[ "sourcedId" := sourcedId ]} ∅ ∅.

Definition scrapeProfilePage (doc : document) (sourcedId : jsstring)
  : completion DeepStudentRecord :=
  let record := initial_record sourcedId in
  let record := scrape_tables doc record in
  let record := scrape_dls doc record in
  let record := scrape_labels doc record in
  let record := scrape_headings doc record in
  match scrape_inputs doc record with
  | Returns record => Returns (name_fallback doc record)
  | Throws e => Throws e
  end.

(** *** The crawl *)

Record link := mkLink {
  link_sourcedId : jsstring;
  link_name : jsstring;
  link_url : jsstring
}.

Inductive event :=
| OnProgress (current total : nat) (student : jsstring)
| Fetch (url : jsstring)
| Warn (message : jsstring)
| Sleep (ms : N).

Section crawl.
(** The network, by request number, and the HTML parser of the platform. *)
Variable net : nat -> jsstring -> fetch_outcome.
Variable parseFromString : jsstring -> document.

(** [fetchAndScrapeProfile(url, sourcedId)] as the k-th request: the
    [try] block, then the [catch] that turns every error into [null]. *)
Definition fetch_try (k : nat) (url sourcedId : jsstring)
  : completion (option DeepStudentRecord) :=
  match net k url with
  | Rejects name _ => Throws name
  | Responds status body =>
      if negb (ok status) then Returns None
      else
        match body with
        | None => Throws (lit "TypeError")
        | Some html =>
            match scrapeProfilePage (parseFromString html) sourcedId with
            | Returns record => Returns (Some record)
            | Throws e => Throws e
            end
        end
  end.

Definition fetchAndScrapeProfile (k : nat) (url sourcedId : jsstring)
  : completion (option DeepStudentRecord) * list event :=
  match fetch_try k url sourcedId with
  | Returns r => (Returns r, [Fetch url])
  | Throws name =>
      (Returns None,
       if bool_decide (name = lit "AbortError")
       then [Fetch url; Warn (lit "SchoolSync: Timeout fetching " ++ url)]
       else [Fetch url])
  end.

(** The loop of [deepCrawl] from index [i] on. *)
Fixpoint crawl_from (i total : nat) (studentLinks : list link)
  (results : list DeepStudentRecord) (trace : list event)
  : list DeepStudentRecord * list event :=
  match studentLinks with
  | [] => (results, trace)
  | l :: rest =>
      let trace := trace ++ [OnProgress (i + 1) total (link_name l)] in
      let '(outcome, evs) := fetchAndScrapeProfile i (link_url l) (link_sourcedId l) in
      let trace := trace ++ evs in
      let '(results, trace) :=
        match outcome with
        | Returns (Some record) => (results ++ [record], trace)
        | Returns None => (results, trace)
        | Throws message =>
            (results,
             trace ++ [Warn (lit "SchoolSync: Failed to crawl " ++ link_name l
                             ++ lit ": " ++ message)])
        end in
      let trace :=
        if (i <? total - 1)%nat then trace ++ [Sleep CRAWL_DELAY_MS] else trace in
      crawl_from (S i) total rest results trace
  end.

(** [deepCrawl(onProgress)], given the links [extractStudentLinks()] found
    on the roster page. *)
Definition deepCrawl (studentLinks : list link)
  : completion (list DeepStudentRecord) * list event :=
  match studentLinks with
  | [] => (Returns [], [])
  | _ =>
      let '(results, trace) :=
        crawl_from 0 (length studentLinks) studentLinks [] [] in
      (Returns results, trace)
  end.

End crawl.
End Crawler.

(** ** Reference notions used to state the properties *)

Module Spec.
Import JS Model.

(** The last record of the list that carries the id [k]. *)
Definition last_with_id (k : jsstring) (students : list StudentRecord)
  : option StudentRecord :=
  last (filter (fun s => sourcedId s = k) students).

(** One insertion per record, in order. *)
Definition index_of (hashOf : StudentRecord -> jsstring)
  (students : list StudentRecord) (m : gmap jsstring jsstring)
  : gmap jsstring jsstring :=
  fold_left (fun m s => <[sourcedId s := hashOf s]> m) students m.

End Spec.

(** ** Sample data *)

Module Examples.
Import JS Model.

Definition jane : StudentRecord :=
  mkStudent (lit "7") (Some (lit "Jane")) (Some (lit "Doe"))
    None None None None None None None ∅.


Definition bob : StudentRecord :=
  mkStudent (lit "8") (Some (lit "Bob")) None (Some (lit "5"))
    None None None None None None ∅.

(** A stand-in platform to run the examples on; it offers no secrecy.  The
    key is the password followed by the salt, the cipher text is the key
    followed by the plain text, and decryption checks that prefix. *)
Fixpoint strip_prefix (p s : list N) : option (list N) :=
  match p, s with
  | [], _ => Some s
  | a :: p', b :: s' => if (a =? b)%N then strip_prefix p' s' else None
  | _ :: _, [] => None
  end.

Definition toy_platform : WebCrypto :=
  {| cryptoKey := list N;
     pbkdf2_key := fun password salt _ _ => password ++ salt;
     aes_gcm_encrypt := fun key _ plain => key ++ plain;
     aes_gcm_decrypt := fun key _ cipher => strip_prefix key cipher;
     btoa := fun bytes => bytes;
     atob := fun text => Some text;
     text_decode := fun bytes => bytes |}.

(** A profile page: a table that names the student twice, a definition
    list with one known and one unknown label, and a page header. *)
Definition profile_page : Crawler.document :=
  Crawler.mkDocument
    [[Crawler.mkRow [lit "First Name:"; lit " Jane "] None None;
      Crawler.mkRow [lit "First name"; lit "Janet"] None None;
      Crawler.mkRow [lit "Grade"; lit "5"] None None]]
    [Crawler.mkDl [lit "Given name"; lit "Locker"; lit "Legal first"]
                  [lit "J."; lit "12"; lit "Joan"]]
    [] [] []
    (Some (lit "Doe, Jane"))
    (fun _ => None)
    (fun _ => Crawler.NoMatch).

(** Three links, and a network that answers the first with the profile
    page, fails on the second and answers the third with a 404. *)
Definition three_links : list Crawler.link :=
  [Crawler.mkLink (lit "482") (lit "Jane Doe") (lit "https://sis.example/students/482");
   Crawler.mkLink (lit "483") (lit "Bob Ray") (lit "https://sis.example/students/483");
   Crawler.mkLink (lit "484") (lit "Al Poe") (lit "https://sis.example/students/484")].

Definition flaky (k : nat) (url : jsstring) : fetch_outcome :=
  match k with
  | 0 => Responds 200 (Some (lit "<html>"))
  | 1 => Rejects (lit "AbortError") (lit "The operation was aborted.")
  | _ => Responds 404 (Some [])
  end.

(** A network on which only the second request fails. *)
Definition second_fails (k : nat) (r : Sync.request) : fetch_outcome :=
  if Nat.eqb k 1 then Rejects (lit "TypeError") (lit "Failed to fetch")
  else Responds 200 (Some []).

(** A session that holds a token and knows its endpoint. *)
Definition signed_in : Storage.state :=
  Storage.mkState (Some (lit "tok")) None (Some (lit "https://capsule.example")).

(** A fresh session after [setToken] stored the token under the
    passphrase [pass]. *)
Definition stored : Storage.state :=
  Storage.clearSession
    (Storage.setToken (H := toy_platform) (repeat 1%N 16) (repeat 2%N 12)
       (lit "tok") (lit "pass")
       (Storage.mkState None None (Some (lit "https://capsule.example")))).

End Examples.

(** ** Reference notions for the synchronizer *)

Module SyncSpec.
Import JS Model Sync.

(** The consecutive slices of [size] elements of a list, numbered from 0;
    the last one may be shorter. *)
Definition numbered_batches {A} (size : nat) (l : list A) : list (nat * list A) :=
  map (fun k => (k, firstn size (skipn (k * size) l)))
      (seq 0 ((length l + size - 1) / size)).

Definition batches {A} (size : nat) (l : list A) : list (list A) :=
  map snd (numbered_batches size l).

(** The requests and the progress reports of a trace. *)
Definition posts (trace : list event) : list request :=
  omap (fun e => match e with Post r => Some r | _ => None end) trace.

Definition progress (trace : list event) : list (nat * nat) :=
  omap (fun e => match e with Progress s t => Some (s, t) | _ => None end) trace.

(** A batch is delivered when its request gets a 2xx response. *)
Definition delivered (o : fetch_outcome) : bool :=
  match o with
  | Responds status _ => ok status
  | Rejects _ _ => false
  end.

Definition total_size {A} (bs : list (nat * list A)) : nat :=
  sum_list_with (fun kb => length (snd kb)) bs.


(** The request that carries a batch. *)
Definition request_of (endpoint token : jsstring) (batch : list StudentRecord)
  : request :=
  mkRequest (endpoint ++ lit "/api/v1/sync/students") token batch.

(** The diagnostic [syncStudents] records for the failed batch number [k]
    (counted from 0). *)
Definition sync_message (k : nat) (o : fetch_outcome) : jsstring :=
  match o with
  | Responds status text =>
      lit "Batch " ++ decimal (N.of_nat (k + 1)) ++ lit ": HTTP " ++ decimal status
      ++ [32; 8212; 32]%N
      ++ match text with Some body => body | None => lit "unknown" end
  | Rejects _ message =>
      lit "Batch " ++ decimal (N.of_nat (k + 1)) ++ lit ": " ++ message
  end.

(** The diagnostic [pushToCapsule] records for a failed batch. *)
Definition push_message (o : fetch_outcome) : jsstring :=
  match o with
  | Responds status text =>
      lit "HTTP " ++ decimal status ++ lit ": "
      ++ firstn 200 (match text with Some body => body | None => [] end)
  | Rejects _ message => message
  end.

(** What a run over the numbered batches [nbs] must report. *)
Section expected.
Variable net : nat -> request -> fetch_outcome.
Variables endpoint token : jsstring.

Definition outcome_of (kb : nat * list StudentRecord) : fetch_outcome :=
  net (fst kb) (request_of endpoint token (snd kb)).

Definition succeeded (nbs : list (nat * list StudentRecord))
  : list (nat * list StudentRecord) :=
  filter (fun kb => delivered (outcome_of kb) = true) nbs.

Definition rejected (nbs : list (nat * list StudentRecord))
  : list (nat * list StudentRecord) :=
  filter (fun kb => delivered (outcome_of kb) = false) nbs.

End expected.

(** The diagnostic of the failed batch number [k], in either copy of the
    loop. *)
Definition diagnostic (http_error : nat -> N -> option jsstring -> jsstring)
  (thrown : nat -> jsstring -> jsstring) (k : nat) (o : fetch_outcome) : jsstring :=
  match o with
  | Responds status text => http_error (k * BATCH_SIZE) status text
  | Rejects _ message => thrown (k * BATCH_SIZE) message
  end.

(** The events one batch leaves in the trace. *)
Definition events_of (reports : bool) (total : nat) (endpoint token : jsstring)
  (kb : nat * list StudentRecord) : list event :=
  Post (request_of endpoint token (snd kb))
  :: (if reports
      then [Progress (Nat.min (fst kb * BATCH_SIZE + BATCH_SIZE) total) total]
      else []).


(** The result and the trace a run over the numbered batches [nbs] must
    produce, [diag] wording the diagnostics. *)
Definition expected_result (diag : nat -> fetch_outcome -> jsstring)
  (net : nat -> request -> fetch_outcome) (endpoint token : jsstring)
  (nbs : list (nat * list StudentRecord)) : result :=
  mkResult (total_size (succeeded net endpoint token nbs))
           (total_size (rejected net endpoint token nbs))
           (map (fun kb => diag (fst kb) (outcome_of net endpoint token kb))
                (rejected net endpoint token nbs)).

Definition expected_trace (reports : bool) (total : nat)
  (endpoint token : jsstring) (nbs : list (nat * list StudentRecord))
  : list event :=
  concat (map (events_of reports total endpoint token) nbs).

End SyncSpec.

(** ** Reference notions for the CSV tokenizer: an RFC 4180 writer *)

Module CsvSpec.
Import JS Csv.

Definition is_special (c : N) : bool :=
  ((c =? QUOTE) || (c =? COMMA) || (c =? LF) || (c =? CR))%N.

(** A field is written between quotes when it holds a quote, a comma or a
    line break; inside the quotes every quote is doubled. *)
Fixpoint escape (f : jsstring) : jsstring :=
  match f with
  | [] => []
  | c :: rest => if (c =? QUOTE)%N then QUOTE :: QUOTE :: escape rest
                 else c :: escape rest
  end.

Definition write_field (f : jsstring) : jsstring :=
  if existsb is_special f then QUOTE :: escape f ++ [QUOTE] else f.

Fixpoint write_row (fields : list jsstring) : jsstring :=
  match fields with
  | [] => []
  | [f] => write_field f
  | f :: rest => write_field f ++ COMMA :: write_row rest
  end.

(** The line break: CR LF, or a bare LF. *)
Definition eol (crlf : bool) : jsstring := if crlf then [CR; LF] else [LF].

Definition write_rows (crlf : bool) (rows : list (list jsstring)) : jsstring :=
  concat (map (fun r => write_row r ++ eol crlf) rows).

(** A row the format can carry: at least one field, and not the single
    empty field, which is a blank line. *)
Definition is_record (r : list jsstring) : Prop := r ≠ [] /\ r ≠ [[]].

(** The byte order mark put in front of the first field of the first row,
    and in front of the first field the scanner has seen. *)
Definition mark_rows (rows : list (list jsstring)) : list (list jsstring) :=
  match rows with
  | (f :: r) :: rest => ((BOM :: f) :: r) :: rest
  | _ => rows
  end.

Definition mark (s : scanner) : scanner :=
  match rows_out s, lines s with
  | _ :: _, _ => mkScanner (mark_rows (rows_out s)) (lines s) (current s) (inQuotes s)
  | [], f :: l => mkScanner [] ((BOM :: f) :: l) (current s) (inQuotes s)
  | [], [] => mkScanner [] [] (BOM :: current s) (inQuotes s)
  end.

(** The scanner has seen a first field: a line break met now ends a row. *)
Definition started (s : scanner) : Prop :=
  nonempty (rows_out s) || nonempty (lines s) || nonempty (current s) = true.

(** The three state changes of the scanner besides the end of a line. *)
Definition push (c : N) (s : scanner) : scanner :=
  mkScanner (rows_out s) (lines s) (current s ++ [c]) (inQuotes s).

Definition toggle (s : scanner) : scanner :=
  mkScanner (rows_out s) (lines s) (current s) (negb (inQuotes s)).

Definition comma (s : scanner) : scanner :=
  mkScanner (rows_out s) (lines s ++ [current s]) [] (inQuotes s).

(** The text does not begin with a quote or a line break. *)
Definition starts_plainly (t : jsstring) : bool :=
  match t with
  | [] => true
  | c :: _ => negb ((c =? QUOTE) || (c =? LF) || (c =? CR))%N
  end.

(** The row of the specification's example and its two fields. *)
Definition example_fields : list jsstring :=
  [lit "Doe, Jane"; lit "Smith High, Annex" ++ [LF] ++ lit "Bldg B"].

Definition example_row : jsstring :=
  [QUOTE] ++ lit "Doe, Jane" ++ [QUOTE; COMMA; QUOTE]
  ++ lit "Smith High, Annex" ++ [LF] ++ lit "Bldg B" ++ [QUOTE].

End CsvSpec.

(** ** Reference notions for the name splitter *)

Module RosterSpec.
Import JS.

Definition not_comma (c : N) : bool := negb (c =? Csv.COMMA)%N.
Definition not_space (c : N) : bool := negb (is_space c).

(** The text up to its first comma, and the text after that comma. *)
Definition until_comma (s : jsstring) : jsstring := take_while not_comma s.
Definition after_comma (s : jsstring) : jsstring := tail (drop_while not_comma s).

(** Every maximal run of white space becomes one space; with [in_run] set,
    a run at the start is dropped. *)
Fixpoint squeeze (in_run : bool) (s : jsstring) : jsstring :=
  match s with
  | [] => []
  | c :: rest =>
      if is_space c then
        if in_run then squeeze true rest else 32%N :: squeeze true rest
      else c :: squeeze false rest
  end.

(** The number a string of decimal digits denotes. *)
Definition number (s : jsstring) : N :=
  fold_left (fun v d => 10 * v + (d - 48))%N s 0%N.

(** A word: not empty, no white space in it. *)
Definition is_word (w : jsstring) : Prop :=
  w ≠ [] /\ forallb not_space w = true.

End RosterSpec.

(** ** Reference notions for the detail crawler *)

Module CrawlerSpec.
Import JS Model Crawler.


Section crawl.
Variable net : nat -> jsstring -> fetch_outcome.
Variable parseFromString : jsstring -> document.

(** The record the k-th request yields when the item succeeds: a 2xx
    response whose body can be read and scraped. *)
Definition item_record (k : nat) (l : link) : option DeepStudentRecord :=
  match net k (link_url l) with
  | Responds status (Some html) =>
      if ok status then
        match scrapeProfilePage (parseFromString html) (link_sourcedId l) with
        | Returns record => Some record
        | Throws _ => None
        end
      else None
  | _ => None
  end.

(** The records of the items that succeed, in order, the first link being
    the k-th request. *)
Fixpoint records_from (k : nat) (links : list link) : list DeepStudentRecord :=
  match links with
  | [] => []
  | l :: rest =>
      match item_record k l with
      | Some record => record :: records_from (S k) rest
      | None => records_from (S k) rest
      end
  end.

(** The progress reports owed for the links, the first being number
    [k + 1] of [total]. *)
Fixpoint reports_from (k total : nat) (links : list link)
  : list (nat * nat * jsstring) :=
  match links with
  | [] => []
  | l :: rest => (k + 1, total, link_name l) :: reports_from (S k) total rest
  end.

End crawl.

(** The pages fetched and the progress reported, as a trace shows them. *)
Definition fetched (trace : list event) : list jsstring :=
  omap (fun e => match e with Fetch url => Some url | _ => None end) trace.

Definition reported (trace : list event) : list (nat * nat * jsstring) :=
  omap (fun e => match e with
                 | OnProgress current total student => Some (current, total, student)
                 | _ => None
                 end) trace.

End CrawlerSpec.

(** ** Settings and sync log (lib/storage.js lines 56-131) *)

Module Settings.
Import JS.

(** [capsuleEndpoint(url)]: a setter when [url] is truthy, a getter
    otherwise. *)
Definition capsuleEndpoint (url : option jsstring) (st : Storage.state)
  : option jsstring * Storage.state :=
  if truthy url
  then (url, Storage.mkState (Storage._sessionToken st) (Storage.encrypted_token st) url)
  else (if truthy (Storage.capsule_endpoint st) then Storage.capsule_endpoint st else None,
        st).

Section log.
(** The entries are whatever the caller records. *)
Variable entry : Type.

(** The keys [last_sync] and [sync_log] of [chrome.storage.local]. *)
Record history := mkHistory {
  last_sync : option entry;
  sync_log : option (list entry)
}.

(** [recordSync(entry)]: the entry becomes the last sync and goes to the
    front of the log, which keeps its first 50 entries. *)
Definition recordSync (e : entry) (h : history) : history :=
  let h := mkHistory (Some e) (sync_log h) in
  let log := match sync_log h with Some l => l | None => [] end in
  let log := e :: log in
  mkHistory (last_sync h) (Some (firstn 50 log)).

(** [lastSync()] and [syncLog()]. *)
Definition lastSync (h : history) : option entry := last_sync h.

Definition syncLog (h : history) : list entry :=
  match sync_log h with Some l => l | None => [] end.

End log.
Arguments mkHistory {entry} _ _.
Arguments last_sync {entry} _.
Arguments sync_log {entry} _.
Arguments recordSync {entry} _ _.
Arguments lastSync {entry} _.
Arguments syncLog {entry} _.

End Settings.

(** ** Service worker: sync with diffing *)

Module Worker.
Import JS Model.

(** The entry the worker logs for a sync. *)
Record sync_entry := mkEntry {
  timestamp : N;
  studentCount : nat;
  status : jsstring;
  entry_errors : list jsstring
}.

(** What [syncStudentData] answers; a property left out is [None]. *)
Record response := mkResponse {
  r_success : bool;
  r_count : nat;
  r_total : option nat;
  r_error : option jsstring;
  r_message : option jsstring
}.

(** What the worker keeps in [chrome.storage.local]: the configuration,
    the hash index and the sync history. *)
Record store := mkStore {
  config : Storage.state;
  student_hashes : option (gmap jsstring jsstring);
  history : Settings.history sync_entry
}.

(** [recordSyncEntry(entry)]. *)
Definition recordSyncEntry (e : sync_entry) (s : store) : store :=
  let h := Settings.mkHistory (Some e) (Settings.sync_log (history s)) in
  let log := match Settings.sync_log h with Some l => l | None => [] end in
  let log := e :: log in
  mkStore (config s) (student_hashes s)
    (Settings.mkHistory (Settings.last_sync h) (Some (firstn 50 log))).

Section with_platform.
Context `{WebCrypto}.

(** [syncStudentData(students, passphrase)]; [now] is what [Date.now()]
    returns. *)
Definition syncStudentData (net : nat -> Sync.request -> fetch_outcome) (now : N)
  (students : list StudentRecord) (passphrase : jsstring) (s : store)
  : response * store * list Sync.event :=
  let existingHashes :=
    match student_hashes s with Some h => h | None => ∅ end in
  let '(changed, newHashes) := Differ.diffStudentsInWorker students existingHashes in
  if Nat.eqb (length changed) 0
  then (mkResponse true 0 None None (Some (lit "No changes detected")), s, [])
  else
    let '(syncResult, trace) := Sync.pushToCapsule net changed passphrase (config s) in
    let s := mkStore (config s) (Some newHashes) (history s) in
    let e :=
      mkEntry now (length changed)
        (if Nat.eqb (Sync.failed syncResult) 0 then lit "success" else lit "partial")
        (Sync.errors syncResult) in
    let s := recordSyncEntry e s in
    (mkResponse (Nat.eqb (Sync.failed syncResult) 0) (length changed)
       (Some (length students))
       (if (0 <? length (Sync.errors syncResult))%nat
        then head (Sync.errors syncResult) else None)
       None,
     s, trace).

End with_platform.
End Worker.

(** ** More sample data *)

Module Samples.
Import JS Model.

(** A network on which every request fails. *)
Definition offline (k : nat) (r : Sync.request) : fetch_outcome :=
  Rejects (lit "TypeError") (lit "Failed to fetch").

(** [Examples.jane] with a birth date, a gender, an extra column and an
    empty grade. *)
Definition jane_more : StudentRecord :=
  mkStudent (lit "7") (Some (lit "Jane")) (Some (lit "Doe"))
    (Some []) None None None None (Some (lit "2014-03-01")) (Some (lit "F"))
    {[ lit "locker" := lit "12" ]}.

End Samples.

(** ** What the digest of a record depends on *)

Module DifferSpec.
Import JS Model.

(** Two records agree on what [hashStudent] serializes: the id, the two
    names, and the five optional fields with an absent one read as the empty
    string. *)
Definition same_synced_fields (a b : StudentRecord) : Prop :=
  sourcedId a = sourcedId b
  /\ firstName a = firstName b
  /\ lastName a = lastName b
  /\ or_empty (gradeLevel a) = or_empty (gradeLevel b)
  /\ or_empty (homeRoom a) = or_empty (homeRoom b)
  /\ or_empty (enrollStatus a) = or_empty (enrollStatus b)
  /\ or_empty (email a) = or_empty (email b)
  /\ or_empty (schoolId a) = or_empty (schoolId b).

End DifferSpec.

(** ** CSV texts with blank lines and mixed line breaks *)

Module CsvLines.
Import JS Csv CsvSpec.

(** The three line breaks the tokenizer knows. *)
Inductive line_end := EndLF | EndCRLF | EndCR.

Definition line_break (k : line_end) : jsstring :=
  match k with
  | EndLF => [LF]
  | EndCRLF => [CR; LF]
  | EndCR => [CR]
  end.

(** A line of a text: a written row or nothing, then a line break. *)
Definition write_line (l : line_end * option (list jsstring)) : jsstring :=
  match snd l with
  | Some r => write_row r ++ line_break (fst l)
  | None => line_break (fst l)
  end.

Definition write_lines (ls : list (line_end * option (list jsstring))) : jsstring :=
  concat (map write_line ls).

(** The rows of the lines that are not blank. *)
Definition records_of (ls : list (line_end * option (list jsstring)))
  : list (list jsstring) :=
  omap snd ls.

(** A value the row loop stores: not empty, and without white space at
    either end. *)
Definition stored_value (v : jsstring) : Prop := v ≠ [] /\ trim v = v.

(** Every value the row under construction holds is a stored value. *)
Definition clean_partial (p : partial) : Prop :=
  Forall (fun o => forall v, o = Some v -> stored_value v)
    [p_sourcedId p; p_lastName p; p_firstName p; p_gradeLevel p; p_homeRoom p;
     p_enrollStatus p; p_email p; p_schoolId p; p_dob p; p_gender p]
  /\ (forall k v, p_extra p !! k = Some v -> stored_value v).

End CsvLines.

(** ** Texts that differ in the case of ASCII letters only *)

Module RegexSpec.
Import JS.

Definition same_letters (s s' : jsstring) : Prop :=
  Forall2 (fun x y => Regex.upper_unit x = Regex.upper_unit y) s s'.

(** An ASCII letter. *)
Definition is_letter (c : N) : bool :=
  ((65 <=? c) && (c <=? 90) || (97 <=? c) && (c <=? 122))%N.

End RegexSpec.

(** ** What a roster row holds before its id is settled *)

Module RosterRows.
Import JS Model Roster.

(** The record under construction after the loop over the mapped columns
    of a data row. *)
Definition row_partial (headerMap : list (nat * column)) (cells : list cell)
  : Csv.partial :=
  fst (fold_left (fill_column cells) headerMap (Csv.empty_partial, false)).

End RosterRows.

(** * Properties *)

(** ** The differ *)

Section differ_properties.
Import JS Sha256 Model Differ Spec Examples.

Implicit Types (students : list StudentRecord) (prior : gmap jsstring jsstring).

Lemma diff_fold hashOf prior students changed m :
  fold_left (diff_step hashOf prior) students (changed, m)
  = (changed ++ filter (fun s => prior !! sourcedId s ≠ Some (hashOf s)) students,
     index_of hashOf students m).
Proof.
  revert changed m. induction students as [|s l IH]; intros changed m; simpl.
  - by rewrite app_nil_r.
  - unfold differs. rewrite filter_cons.
    destruct (decide (prior !! sourcedId s ≠ Some (hashOf s))) as [Hd|Hd].
    + rewrite bool_decide_eq_true_2 by done. rewrite IH. by rewrite <- app_assoc.
    + rewrite bool_decide_eq_false_2 by done. by rewrite IH.
Qed.

Lemma index_of_lookup hashOf students m k :
  index_of hashOf students m !! k
  = match last_with_id k students with
    | Some r => Some (hashOf r)
    | None => m !! k
    end.
Proof.
  unfold index_of, last_with_id.
  induction students as [|s l IH] using rev_ind; [reflexivity|].
  rewrite fold_left_app, filter_app. simpl.
  destruct (decide (sourcedId s = k)) as [Heq|Hne].
  - rewrite filter_cons_True by done. rewrite Heq, lookup_insert_eq.
    rewrite filter_nil. by rewrite last_snoc.
  - rewrite lookup_insert_ne by done. rewrite filter_cons_False by done.
    by rewrite filter_nil, app_nil_r.
Qed.

Lemma last_with_id_unique students s :
  NoDup (map sourcedId students) -> s ∈ students ->
  last_with_id (sourcedId s) students = Some s.
Proof.
  unfold last_with_id. induction students as [|x l IH]; intros Hnd Hin.
  - by apply elem_of_nil in Hin.
  - simpl in Hnd. apply NoDup_cons in Hnd as [Hx Hnd].
    apply elem_of_cons in Hin as [->|Hin].
    + rewrite filter_cons_True by done.
      assert (filter (fun y => sourcedId y = sourcedId x) l = []) as ->; [|done].
      destruct (filter _ l) as [|y l'] eqn:E; [done|].
      assert (y ∈ filter (fun y => sourcedId y = sourcedId x) l) as Hy
        by (rewrite E; left).
      apply list_elem_of_filter in Hy as [Hy1 Hy2].
      exfalso. apply Hx. rewrite <- Hy1. by apply list_elem_of_fmap_2.
    + rewrite filter_cons_False; [by apply IH|].
      intros Heq. apply Hx. rewrite Heq. by apply list_elem_of_fmap_2.
Qed.





Lemma worker_same students prior :
  diffStudentsInWorker students prior = diffStudents students prior.
Proof. reflexivity. Qed.

Lemma diff_pair students prior :
  diffStudents students prior
  = (filter (fun s => prior !! sourcedId s ≠ Some (hashStudent s)) students,
     index_of hashStudent students ∅).
Proof. unfold diffStudents. by rewrite diff_fold. Qed.

Lemma index_lookup_last students k :
  index_of hashStudent students ∅ !! k = hashStudent <$> last_with_id k students.
Proof.
  rewrite index_of_lookup. destruct (last_with_id k students); [done|].
  apply lookup_empty.
Qed.






End differ_properties.

(** ** The synchronizer *)

Section sync_properties.
Import JS Model Sync SyncSpec.

Lemma ceil_div_small n k : n <= k * 50 -> (n + 50 - 1) / 50 - k = 0.
Proof.
  intros Hle. apply Nat.sub_0_le.
  assert ((n + 50 - 1) / 50 <= (k * 50 + 49) / 50) as Hd
    by (apply Nat.Div0.div_le_mono; lia).
  replace ((k * 50 + 49) / 50) with k in Hd; [done|].
  rewrite (Nat.add_comm (k * 50)), Nat.div_add by lia. reflexivity.
Qed.

Lemma ceil_div_large n k : k * 50 < n -> (n + 50 - 1) / 50 - k = S ((n + 50 - 1) / 50 - S k).
Proof.
  intros Hlt.
  assert (S k <= (n + 50 - 1) / 50); [|lia].
  assert ((S k * 50) / 50 <= (n + 50 - 1) / 50) as Hd
    by (apply Nat.Div0.div_le_mono; lia).
  by rewrite Nat.div_mul in Hd by lia.
Qed.

Section loop.
Variable net : nat -> request -> fetch_outcome.
Variables endpoint token : jsstring.
Variable students : list StudentRecord.
Variable http_error : nat -> N -> option jsstring -> jsstring.
Variable thrown : nat -> jsstring -> jsstring.
Variable reports : bool.

Abbreviation step := (batch_step net endpoint token students http_error thrown reports).
Abbreviation loop := (batch_loop net endpoint token students http_error thrown reports).

(** With fuel for the remaining slices, the loop visits the indices
    [k * 50] for every [k] up to the number of batches. *)
Lemma batch_loop_unfold fuel k acc :
  length students <= k * 50 + fuel ->
  loop fuel (k * 50) acc
  = fold_left (fun acc j => step (j * 50) acc)
      (seq k ((length students + 50 - 1) / 50 - k)) acc.
Proof.
  revert k acc. induction fuel as [|fuel IH]; intros k acc Hfuel.
  - rewrite ceil_div_small by lia. reflexivity.
  - cbn [batch_loop].
    destruct (Nat.ltb_spec (k * 50) (length students)) as [Hlt|Hge].
    + rewrite (ceil_div_large _ _ Hlt). cbn [seq fold_left].
      replace (k * 50 + BATCH_SIZE) with (S k * 50) by (unfold BATCH_SIZE; lia).
      apply IH. lia.
    + rewrite ceil_div_small by lia. reflexivity.
Qed.

Abbreviation slice := (fun k => (k, firstn 50 (skipn (k * 50) students))).

Lemma batch_step_spec k res trace :
  step (k * 50) (res, trace)
  = let kb := slice k in
    let o := outcome_of net endpoint token kb in
    ((if delivered o
      then mkResult (success res + length (snd kb)) (failed res) (errors res)
      else mkResult (success res) (failed res + length (snd kb))
             (errors res ++ [diagnostic http_error thrown k o])),
     trace ++ events_of reports (length students) endpoint token kb).
Proof.
  unfold batch_step, outcome_of, events_of, diagnostic, request_of, sync_url, BATCH_SIZE.
  cbn [fst snd]. rewrite Nat.div_mul by lia.
  assert (Htrace : forall e : event,
            (if reports then (trace ++ [e]) ++ [Progress (Nat.min (k * 50 + 50) (length students)) (length students)] else trace ++ [e])
            = trace ++ e :: (if reports then [Progress (Nat.min (k * 50 + 50) (length students)) (length students)] else [])).
  { intros e. destruct reports; [by rewrite <- app_assoc|done]. }
  rewrite Htrace.
  destruct (net k _) as [nm msg|status body]; cbn [delivered]; [done|].
  by destruct (ok status).
Qed.

Lemma expected_result_snoc diag nbs kb :
  expected_result diag net endpoint token (nbs ++ [kb])
  = let r := expected_result diag net endpoint token nbs in
    let o := outcome_of net endpoint token kb in
    if delivered o
    then mkResult (success r + length (snd kb)) (failed r) (errors r)
    else mkResult (success r) (failed r + length (snd kb)) (errors r ++ [diag (fst kb) o]).
Proof.
  unfold expected_result, succeeded, rejected, total_size. cbn zeta.
  rewrite !filter_app, !map_app, !sum_list_with_app.
  rewrite !filter_cons, !filter_nil.
  destruct (delivered (outcome_of net endpoint token kb)) eqn:E.
  - rewrite decide_True by done. rewrite decide_False by done.
    cbn [sum_list_with map success failed errors]. rewrite app_nil_r.
    f_equal; lia.
  - rewrite decide_False by done. rewrite decide_True by done.
    cbn [sum_list_with map success failed errors].
    f_equal; lia.
Qed.

Lemma fold_batches m :
  fold_left (fun acc j => step (j * 50) acc) (seq 0 m) (mkResult 0 0 [], [])
  = (expected_result (diagnostic http_error thrown) net endpoint token
       (map slice (seq 0 m)),
     expected_trace reports (length students) endpoint token (map slice (seq 0 m))).
Proof.
  induction m as [|m IH]; [reflexivity|].
  rewrite seq_S, fold_left_app, IH. cbn [fold_left Nat.add].
  rewrite batch_step_spec. cbn zeta.
  rewrite map_app. cbn [map].
  rewrite expected_result_snoc. cbn zeta.
  unfold expected_trace. rewrite map_app, concat_app. cbn [map concat].
  by rewrite app_nil_r.
Qed.

Lemma send_batches_spec :
  send_batches net endpoint token students http_error thrown reports
  = (expected_result (diagnostic http_error thrown) net endpoint token
       (numbered_batches 50 students),
     expected_trace reports (length students) endpoint token
       (numbered_batches 50 students)).
Proof.
  unfold send_batches.
  rewrite (batch_loop_unfold (length students) 0) by lia.
  rewrite Nat.sub_0_r. apply fold_batches.
Qed.
End loop.

Lemma ceil_div_covers n : n <= (n + 50 - 1) / 50 * 50.
Proof.
  pose proof (Nat.div_mod_eq (n + 50 - 1) 50) as Hd.
  pose proof (Nat.mod_upper_bound (n + 50 - 1) 50). lia.
Qed.

Lemma ceil_div_strict n k : k < (n + 50 - 1) / 50 -> k * 50 < n.
Proof.
  intros Hk. destruct (Nat.lt_ge_cases (k * 50) n) as [|Hge]; [done|].
  pose proof (ceil_div_small n k Hge). lia.
Qed.

Lemma concat_slices {A} (l : list A) m :
  concat (map (fun k => firstn 50 (skipn (k * 50) l)) (seq 0 m)) = firstn (m * 50) l.
Proof.
  induction m as [|m IH]; [reflexivity|].
  rewrite seq_S, map_app, concat_app, IH. cbn [map concat Nat.add].
  rewrite app_nil_r, take_take_drop. f_equal. lia.
Qed.

Lemma batches_concat {A} (l : list A) : concat (batches 50 l) = l.
Proof.
  unfold batches, numbered_batches. rewrite map_map. cbn [snd].
  rewrite concat_slices. apply take_ge, ceil_div_covers.
Qed.

Lemma batches_sizes {A} (l : list A) k b :
  batches 50 l !! k = Some b ->
  0 < length b <= 50 /\ (S k < length (batches 50 l) -> length b = 50).
Proof.
  unfold batches, numbered_batches. rewrite map_map, length_map, length_seq.
  cbn [snd]. intros Hb.
  apply list_lookup_fmap_Some_1 in Hb as (j & -> & Hj).
  apply lookup_seq in Hj as [-> Hk]. cbn [Nat.add].
  rewrite length_take, length_drop.
  pose proof (ceil_div_strict _ _ Hk). split; [lia|].
  intros Hk'. pose proof (ceil_div_strict _ _ Hk'). lia.
Qed.

Lemma posts_expected reports total endpoint token nbs :
  posts (expected_trace reports total endpoint token nbs)
  = map (fun kb => request_of endpoint token (snd kb)) nbs.
Proof.
  unfold expected_trace, posts. induction nbs as [|kb nbs IH]; [reflexivity|].
  cbn [map concat]. rewrite omap_app, IH. by destruct reports.
Qed.

Lemma progress_expected total endpoint token nbs :
  progress (expected_trace true total endpoint token nbs)
  = map (fun kb => (Nat.min (fst kb * 50 + 50) total, total)) nbs.
Proof.
  unfold expected_trace, progress. induction nbs as [|kb nbs IH]; [reflexivity|].
  cbn [map concat]. by rewrite omap_app, IH.
Qed.

Lemma sync_diagnostic k o :
  diagnostic
    (fun i status text =>
       lit "Batch " ++ batch_number i ++ lit ": HTTP " ++ decimal status
       ++ [32; 8212; 32]%N
       ++ match text with Some body => body | None => lit "unknown" end)
    (fun i message => lit "Batch " ++ batch_number i ++ lit ": " ++ message)
    k o
  = sync_message k o.
Proof.
  unfold diagnostic, sync_message, batch_number.
  rewrite Nat.div_mul by (unfold BATCH_SIZE; lia). by destruct o.
Qed.

Lemma push_diagnostic k o :
  diagnostic
    (fun _ status text =>
       lit "HTTP " ++ decimal status ++ lit ": "
       ++ firstn 200 (match text with Some body => body | None => [] end))
    (fun _ message => message) k o
  = push_message o.
Proof. by destruct o. Qed.

(** The tallies of a run of 120 records whose second request alone fails. *)
Lemma tallies_120 net endpoint token (students : list StudentRecord) :
  length students = 120 ->
  (forall k r, delivered (net k r) = negb (Nat.eqb k 1)) ->
  let nbs := numbered_batches 50 students in
  length nbs = 3
  /\ total_size (succeeded net endpoint token nbs) = 70
  /\ total_size (rejected net endpoint token nbs) = 50
  /\ length (rejected net endpoint token nbs) = 1.
Proof.
  intros Hlen Hnet. unfold numbered_batches. rewrite Hlen.
  change ((120 + 50 - 1) / 50) with 3. cbn [seq map]. split; [done|].
  unfold succeeded, rejected, outcome_of, total_size.
  rewrite !filter_cons, !filter_nil. cbn [fst snd].
  rewrite !Hnet. cbn [Nat.eqb negb].
  repeat (first [rewrite decide_True by done | rewrite decide_False by done]).
  cbn [sum_list_with snd]. rewrite !length_take, !length_drop, Hlen.
  repeat split; reflexivity.
Qed.

Section with_platform.
Context `{WebCrypto}.

(** C3: the records are cut into consecutive batches of 50, the last one
    possibly shorter; once the token and the endpoint are available, both
    [syncStudents] and the service worker's [pushToCapsule] send every batch,
    in order, whatever happened to the earlier ones; a batch answered with a
    2xx status adds its size to [success], any other batch adds its size to
    [failed] and one diagnostic to [errors]; with 120 records and a network
    on which only the second request fails the result is success = 70,
    failed = 50 and three requests are sent. *)
Theorem sync_batches_accounted net (students : list StudentRecord) :
  let nbs := numbered_batches 50 students in
  let total := length students in
  (concat (batches 50 students) = students
   /\ forall k b, batches 50 students !! k = Some b ->
        0 < length b <= 50 /\ (S k < length (batches 50 students) -> length b = 50))
  /\ (forall passphrase st token st1 endpoint,
        Storage.getToken passphrase st = (Some token, st1) ->
        truthy (Some token) = true ->
        Storage.capsuleEndpoint st1 = Some endpoint ->
        exists res trace,
          syncStudents net students passphrase st = (Returns res, st1, trace)
          /\ posts trace = map (fun kb => request_of endpoint token (snd kb)) nbs
          /\ progress trace = map (fun kb => (Nat.min (fst kb * 50 + 50) total, total)) nbs
          /\ res = expected_result sync_message net endpoint token nbs
          /\ (total = 120 ->
              (forall k r, delivered (net k r) = negb (Nat.eqb k 1)) ->
              success res = 70 /\ failed res = 50 /\ length (errors res) = 1
              /\ length (posts trace) = 3))
  /\ (forall passphrase st encrypted endpoint token,
        Storage.capsule_endpoint st = Some endpoint -> truthy (Some endpoint) = true ->
        Storage.encrypted_token st = Some encrypted -> truthy (Some encrypted) = true ->
        decryptToken encrypted passphrase = Some token ->
        exists res trace,
          pushToCapsule net students passphrase st = (res, trace)
          /\ posts trace = map (fun kb => request_of endpoint token (snd kb)) nbs
          /\ res = expected_result (fun _ => push_message) net endpoint token nbs
          /\ (total = 120 ->
              (forall k r, delivered (net k r) = negb (Nat.eqb k 1)) ->
              success res = 70 /\ failed res = 50 /\ length (errors res) = 1
              /\ length (posts trace) = 3)).
Proof.
  intros nbs total. split; [split; [apply batches_concat|apply batches_sizes]|].
  split.
  - intros passphrase st token st1 endpoint Htok Htruthy Hend.
    unfold syncStudents. rewrite Htok, Htruthy, Hend. cbn [negb].
    assert (truthy (Some endpoint) = true) as ->.
    { unfold Storage.capsuleEndpoint in Hend.
      destruct (truthy (Storage.capsule_endpoint st1)) eqn:E; [|done].
      by rewrite <- Hend. }
    cbn [negb or_empty]. rewrite send_batches_spec.
    eexists _, _. split; [reflexivity|].
    rewrite posts_expected, progress_expected.
    split; [done|]. split; [done|]. split.
    { unfold expected_result. f_equal. apply map_ext. intros kb. apply sync_diagnostic. }
    intros H120 Hnet.
    destruct (tallies_120 net endpoint token students H120 Hnet)
      as (Hn & Hs & Hf & He).
    unfold expected_result. cbn [success failed errors]. rewrite !length_map.
    done.
  - intros passphrase st encrypted endpoint token Hend Het Henc Hect Hdec.
    unfold pushToCapsule. rewrite Hend, Henc, Het, Hect. cbn [negb orb or_empty].
    rewrite Hdec, send_batches_spec.
    eexists _, _. split; [reflexivity|].
    rewrite posts_expected.
    split; [done|]. split.
    { unfold expected_result. f_equal. }
    intros H120 Hnet.
    destruct (tallies_120 net endpoint token students H120 Hnet)
      as (Hn & Hs & Hf & He).
    unfold expected_result. cbn [success failed errors]. rewrite !length_map.
    done.
Qed.

End with_platform.

(** The theorem at 120 records, a signed-in session for [syncStudents], a
    stored token for [pushToCapsule], and a network whose second request
    fails. *)
Lemma sync_batches_accounted_witness :
  (exists res trace,
     syncStudents (H := Examples.toy_platform) Examples.second_fails
       (repeat Examples.jane 120) None Examples.signed_in
     = (Returns res, Examples.signed_in, trace)
     /\ success res = 70 /\ failed res = 50 /\ length (posts trace) = 3)
  /\ (exists res trace,
       pushToCapsule (H := Examples.toy_platform) Examples.second_fails
         (repeat Examples.jane 120) (lit "pass") Examples.stored
       = (res, trace)
       /\ success res = 70 /\ failed res = 50 /\ length (posts trace) = 3).
Proof.
  destruct (sync_batches_accounted (H := Examples.toy_platform)
              Examples.second_fails (repeat Examples.jane 120))
    as (_ & Hsync & Hpush).
  assert (Hnet : forall k r,
             delivered (Examples.second_fails k r) = negb (Nat.eqb k 1)).
  { intros k r. unfold Examples.second_fails. by destruct (Nat.eqb k 1). }
  split.
  - destruct (Hsync None Examples.signed_in (lit "tok") Examples.signed_in
                (lit "https://capsule.example") eq_refl eq_refl eq_refl)
      as (res & trace & Heq & _ & _ & _ & H120).
    exists res, trace. split; [exact Heq|].
    destruct (H120 eq_refl Hnet) as (? & ? & ? & ?). done.
  - destruct (Hpush (lit "pass") Examples.stored
                (or_empty (Storage.encrypted_token Examples.stored))
                (lit "https://capsule.example") (lit "tok")
                eq_refl eq_refl eq_refl eq_refl eq_refl)
      as (res & trace & Heq & _ & _ & H120).
    exists res, trace. split; [exact Heq|].
    destruct (H120 eq_refl Hnet) as (? & ? & ? & ?). done.
Defined.

End sync_properties.

(** ** The CSV export parser *)

Section csv_properties.
Import JS Model Csv CsvSpec.

Implicit Types (s : scanner) (f rest : jsstring).

(** The steps of the scanner, one character class at a time. *)
Lemma scan_doubled_quote rest s :
  inQuotes s = true ->
  scan (QUOTE :: QUOTE :: rest) s
  = scan rest (mkScanner (rows_out s) (lines s) (current s ++ [QUOTE]) true).
Proof. intros Hq. cbn. by rewrite Hq. Qed.

Lemma scan_inside_quotes c rest s :
  inQuotes s = true -> c ≠ QUOTE ->
  scan (c :: rest) s
  = scan rest (mkScanner (rows_out s) (lines s) (current s ++ [c]) true).
Proof.
  intros Hq Hc. cbn [scan]. rewrite Hq.
  rewrite (proj2 (N.eqb_neq c QUOTE)) by done.
  rewrite !andb_false_r. done.
Qed.

Lemma scan_closing_quote rest s :
  inQuotes s = true -> head rest ≠ Some QUOTE ->
  scan (QUOTE :: rest) s
  = scan rest (mkScanner (rows_out s) (lines s) (current s) false).
Proof.
  intros Hq Hr. cbn [scan]. rewrite N.eqb_refl, Hq.
  destruct rest as [|next rest']; [done|].
  rewrite (proj2 (N.eqb_neq next QUOTE)); [done|].
  intros ->. by apply Hr.
Qed.

Lemma scan_opening_quote rest s :
  inQuotes s = false ->
  scan (QUOTE :: rest) s
  = scan rest (mkScanner (rows_out s) (lines s) (current s) true).
Proof.
  intros Hq. cbn [scan]. rewrite N.eqb_refl, Hq. by destruct rest.
Qed.

Lemma scan_plain_char c rest s :
  inQuotes s = false -> is_special c = false ->
  scan (c :: rest) s
  = scan rest (mkScanner (rows_out s) (lines s) (current s ++ [c]) false).
Proof.
  intros Hq Hc. unfold is_special in Hc.
  apply orb_false_iff in Hc as [Hc Hcr]. apply orb_false_iff in Hc as [Hc Hlf].
  apply orb_false_iff in Hc as [Hqu Hco].
  cbn [scan]. by rewrite Hqu, Hco, Hlf, Hcr, Hq.
Qed.

Lemma scan_comma rest s :
  inQuotes s = false ->
  scan (COMMA :: rest) s
  = scan rest (mkScanner (rows_out s) (lines s ++ [current s]) [] false).
Proof. intros Hq. cbn [scan]. by rewrite Hq. Qed.

Lemma scan_eol crlf rest s :
  inQuotes s = false ->
  scan (eol crlf ++ rest) s = scan rest (end_of_line s).
Proof.
  intros Hq. destruct crlf; cbn [eol app scan]; rewrite Hq; cbn.
  - done.
  - by destruct rest.
Qed.

Lemma end_of_line_record s :
  nonempty (current s) || nonempty (lines s) = true ->
  end_of_line s
  = mkScanner (rows_out s ++ [lines s ++ [current s]]) [] [] (inQuotes s).
Proof.
  intros Hne. unfold end_of_line. rewrite Hne. cbn.
  by destruct (lines s).
Qed.

(** Scanning a written field appends the field to [current]. *)
Lemma scan_escaped f rest s :
  inQuotes s = true -> head rest ≠ Some QUOTE ->
  scan (escape f ++ QUOTE :: rest) s
  = scan rest (mkScanner (rows_out s) (lines s) (current s ++ f) false).
Proof.
  revert s. induction f as [|c f IH]; intros s Hq Hr.
  - cbn [escape app]. rewrite scan_closing_quote by done. by rewrite app_nil_r.
  - cbn [escape]. destruct (N.eqb_spec c QUOTE) as [->|Hc].
    + cbn [app]. rewrite scan_doubled_quote by done.
      rewrite IH by done. cbn. by rewrite <- app_assoc.
    + cbn [app]. rewrite scan_inside_quotes by done.
      rewrite IH by done. cbn. by rewrite <- app_assoc.
Qed.

Lemma scan_plain f rest s :
  inQuotes s = false -> existsb is_special f = false ->
  scan (f ++ rest) s
  = scan rest (mkScanner (rows_out s) (lines s) (current s ++ f) false).
Proof.
  revert s. induction f as [|c f IH]; intros s Hq Hf.
  - cbn. rewrite app_nil_r. destruct s; cbn in *; by subst.
  - cbn in Hf. apply orb_false_iff in Hf as [Hc Hf].
    cbn [app]. rewrite scan_plain_char by done.
    rewrite IH by done. cbn. by rewrite <- app_assoc.
Qed.

Lemma scan_field f rest s :
  inQuotes s = false -> head rest ≠ Some QUOTE ->
  scan (write_field f ++ rest) s
  = scan rest (mkScanner (rows_out s) (lines s) (current s ++ f) false).
Proof.
  intros Hq Hr. unfold write_field. destruct (existsb is_special f) eqn:E.
  - cbn [app]. rewrite <- app_assoc. cbn [app].
    rewrite scan_opening_quote by done. by rewrite scan_escaped.
  - by apply scan_plain.
Qed.

Lemma scan_row fields rest s :
  inQuotes s = false -> current s = [] -> fields ≠ [] ->
  head rest ≠ Some QUOTE ->
  scan (write_row fields ++ rest) s
  = scan rest (mkScanner (rows_out s) (lines s ++ removelast fields)
                 (List.last fields []) false).
Proof.
  revert s. induction fields as [|f fields IH]; intros s Hq Hc Hne Hr; [done|].
  destruct fields as [|g fields].
  - cbn [write_row removelast List.last]. rewrite scan_field by done.
    by rewrite Hc, app_nil_r.
  - change (write_row (f :: g :: fields))
      with (write_field f ++ COMMA :: write_row (g :: fields)).
    rewrite <- app_assoc. cbn [app].
    rewrite scan_field; [|done|by intros [=]].
    rewrite scan_comma by done. cbn [rows_out lines current].
    rewrite IH; [|done..]. cbn [rows_out lines current].
    rewrite Hc. cbn [app]. rewrite <- app_assoc. done.
Qed.

Lemma scan_rows crlf rows rest R :
  Forall is_record rows ->
  scan (write_rows crlf rows ++ rest) (mkScanner R [] [] false)
  = scan rest (mkScanner (R ++ rows) [] [] false).
Proof.
  intros Hrows. revert R. induction Hrows as [|r rows [Hr1 Hr2] _ IH]; intros R.
  - cbn. by rewrite app_nil_r.
  - unfold write_rows. cbn [map concat]. rewrite <- !app_assoc.
    rewrite scan_row; [|done|done|done|by destruct crlf].
    rewrite scan_eol by done.
    rewrite end_of_line_record.
    + cbn [rows_out lines current inQuotes app].
      assert (removelast r ++ [List.last r []] = r) as ->
        by (symmetry; by apply app_removelast_last).
      fold (write_rows crlf rows). rewrite IH. by rewrite <- app_assoc.
    + cbn [lines current app].
      destruct r as [|f r]; [done|]. destruct r as [|g r].
      * cbn. destruct f; [done|done].
      * cbn [removelast]. cbn. by rewrite orb_true_r.
Qed.


Lemma all_rows_written crlf rows :
  Forall is_record rows -> all_rows (write_rows crlf rows) = rows.
Proof.
  intros Hrows. unfold all_rows.
  rewrite <- (app_nil_r (write_rows crlf rows)), scan_rows by done. done.
Qed.

Lemma all_rows_written_open crlf rows r :
  Forall is_record rows -> is_record r ->
  all_rows (write_rows crlf rows ++ write_row r) = rows ++ [r].
Proof.
  intros Hrows [Hr1 Hr2]. unfold all_rows.
  rewrite scan_rows by done.
  rewrite <- (app_nil_r (write_row r)), scan_row by done.
  cbn [scan rows_out lines current app].
  assert (removelast r ++ [List.last r []] = r) as Hr
    by (symmetry; by apply app_removelast_last).
  rewrite Hr.
  destruct r as [|f r]; [done|]. destruct r as [|g r].
  - destruct f; done.
  - cbn [removelast]. cbn. by rewrite orb_true_r.
Qed.

(** C4: the CSV tokenizer follows RFC 4180.  Inside a quoted field a doubled
    quote adds one quote character to the field, and a comma, a line feed or
    a carriage return is added to the field like any other character;
    outside quotes CR LF and a bare LF both end the row; consequently every
    table written the RFC 4180 way (fields quoted when they hold a quote, a
    comma or a line break, rows ended by CR LF or by LF, the last line break
    optional) is read back field by field; and the row of the
    specification's example is read as exactly two fields. *)
Theorem csv_tokenizer_rfc4180 :
  (forall rest s, inQuotes s = true ->
     scan (QUOTE :: QUOTE :: rest) s
     = scan rest (mkScanner (rows_out s) (lines s) (current s ++ [QUOTE]) true))
  /\ (forall c rest s, inQuotes s = true -> c = COMMA \/ c = LF \/ c = CR ->
       scan (c :: rest) s
       = scan rest (mkScanner (rows_out s) (lines s) (current s ++ [c]) true))
  /\ (forall crlf rest s, inQuotes s = false ->
       nonempty (current s) || nonempty (lines s) = true ->
       scan (eol crlf ++ rest) s
       = scan rest (mkScanner (rows_out s ++ [lines s ++ [current s]]) [] [] false))
  /\ (forall crlf rows, Forall is_record rows ->
       all_rows (write_rows crlf rows) = rows)
  /\ (forall crlf rows r, Forall is_record rows -> is_record r ->
       all_rows (write_rows crlf rows ++ write_row r) = rows ++ [r])
  /\ all_rows example_row = [example_fields]
  /\ parseCSV (lit "Name,School" ++ [LF] ++ example_row ++ [CR; LF])
     = ([lit "Name"; lit "School"], [example_fields]).
Proof.
  split_and!.
  - apply scan_doubled_quote.
  - intros c rest s Hq Hc. apply scan_inside_quotes; [done|].
    by destruct Hc as [->|[->| ->]].
  - intros crlf rest s Hq Hne. rewrite scan_eol by done.
    rewrite end_of_line_record by done. by rewrite Hq.
  - apply all_rows_written.
  - apply all_rows_written_open.
  - reflexivity.
  - reflexivity.
Qed.

(** The theorem at the example row written with CR LF. *)
Lemma csv_tokenizer_rfc4180_witness :
  Forall is_record [example_fields]
  /\ all_rows (write_rows true [example_fields]) = [example_fields].
Proof.
  assert (Hrec : Forall is_record [example_fields]).
  { repeat constructor; discriminate. }
  split; [exact Hrec|].
  exact (proj1 (proj2 (proj2 (proj2 csv_tokenizer_rfc4180))) true _ Hrec).
Defined.

(** C5 at its failing input: two rows of a CSV export that carry the same
    name and no id get the same synthesized id, which has no row index, so
    the ids of one parse pass are not pairwise distinct. *)
Theorem csv_synthesized_ids_collide :
  let records :=
    parseExportCSV
      (lit "first,last" ++ [LF] ++ lit "Jane,Doe" ++ [LF] ++ lit "Jane,Doe") in
  map sourcedId records = [lit "ps_doe_jane"; lit "ps_doe_jane"]
  /\ ~ NoDup (map sourcedId records).
Proof.
  assert (Hids : map sourcedId
                   (parseExportCSV
                      (lit "first,last" ++ [LF] ++ lit "Jane,Doe" ++ [LF]
                       ++ lit "Jane,Doe"))
                 = [lit "ps_doe_jane"; lit "ps_doe_jane"])
    by (vm_compute; reflexivity).
  split; [exact Hids|]. rewrite Hids. intros Hnd.
  apply NoDup_cons in Hnd as [Hnotin _]. apply Hnotin. left.
Qed.

(** C6 at its failing input: a text that starts with a line break yields
    one record, and no record at all once the byte order mark U+FEFF is put
    in front of it. *)
Theorem csv_bom_changes_result :
  let t := [LF] ++ lit "id,first" ++ [LF] ++ lit "1,Bob" in
  parseExportCSV t
  = [mkStudent (lit "1") (Some (lit "Bob")) None None None None None None None None ∅]
  /\ parseExportCSV (BOM :: t) = [].
Proof. split; vm_compute; reflexivity. Qed.

End csv_properties.

(** ** The name splitter *)

Section roster_properties.
Import JS Roster RosterSpec.

Lemma split_on_spec sep cur s :
  split_on sep cur s
  = (cur ++ take_while (fun c => negb (c =? sep)%N) s)
    :: match drop_while (fun c => negb (c =? sep)%N) s with
       | [] => []
       | _ :: rest => split_on sep [] rest
       end.
Proof.
  revert cur. induction s as [|c s IH]; intros cur; cbn.
  - by rewrite app_nil_r.
  - destruct (c =? sep)%N; cbn.
    + by rewrite app_nil_r.
    + rewrite IH. by rewrite <- app_assoc.
Qed.

Lemma includes_drop_while s :
  includes Csv.COMMA s = Csv.nonempty (drop_while not_comma s).
Proof.
  unfold includes, not_comma. induction s as [|c s IH]; [done|].
  cbn [existsb drop_while]. rewrite (N.eqb_sym Csv.COMMA c).
  destruct (c =? Csv.COMMA)%N; cbn [orb negb]; done.
Qed.

Lemma includes_false_take s :
  includes Csv.COMMA s = false -> take_while not_comma s = s.
Proof.
  unfold includes, not_comma. induction s as [|c s IH]; [done|].
  cbn [existsb take_while]. rewrite (N.eqb_sym Csv.COMMA c).
  destruct (c =? Csv.COMMA)%N; cbn [orb negb]; [done|].
  intros Hs. by rewrite IH.
Qed.

Lemma split_ws_on_false cur s :
  split_ws_on cur false s
  = (cur ++ take_while not_space s)
    :: match drop_while not_space s with
       | [] => []
       | _ :: rest => split_ws_on [] true rest
       end.
Proof.
  unfold not_space. revert cur. induction s as [|c s IH]; intros cur; cbn.
  - by rewrite app_nil_r.
  - destruct (is_space c); cbn.
    + by rewrite app_nil_r.
    + rewrite IH. by rewrite <- app_assoc.
Qed.

Lemma split_ws_on_nonempty cur b s : split_ws_on cur b s ≠ [].
Proof.
  revert cur b. induction s as [|c s IH]; intros cur b; cbn; [done|].
  destruct (is_space c); [destruct b|]; try done; apply IH.
Qed.

Lemma join_cons sep p ps :
  ps ≠ [] -> join sep (p :: ps) = p ++ sep ++ join sep ps.
Proof. by destruct ps. Qed.

Lemma join_split_ws_on s :
  (forall cur, join [32%N] (split_ws_on cur false s) = cur ++ squeeze false s)
  /\ (forall cur, join [32%N] (split_ws_on cur true s) = cur ++ squeeze true s).
Proof.
  induction s as [|c s [IHf IHt]]; cbn.
  - split; intros cur; by rewrite app_nil_r.
  - destruct (is_space c).
    + split; intros cur; [|apply IHt].
      rewrite join_cons by apply split_ws_on_nonempty. by rewrite IHt.
    + split; intros cur; rewrite IHf; by rewrite <- app_assoc.
Qed.


Lemma drop_while_nil_take p s : drop_while p s = [] -> take_while p s = s.
Proof.
  induction s as [|c s IH]; [done|]. cbn. destruct (p c); [|done].
  intros Hs. by rewrite IH.
Qed.

Lemma drop_while_head p s c rest : drop_while p s = c :: rest -> p c = false.
Proof.
  induction s as [|d s IH]; [done|]. cbn. destruct (p d) eqn:E; [done|].
  by intros [= <- _].
Qed.

(** C8 (amended): on the trimmed text, when it holds a comma the surname is
    the trimmed part before the first comma and the given name is the
    trimmed part between the first comma and the second one (all that
    follows the comma when there is only one); otherwise the given name is
    the text up to its first white space and the surname is what follows
    that white space, with every later run of white space turned into one
    space (empty when there is no white space at all). *)
Theorem parseName_splits textContent :
  let text := trim textContent in
  let name := parseName textContent in
  (includes Csv.COMMA text = true ->
     family name = trim (until_comma text)
     /\ given name = trim (until_comma (after_comma text))
     /\ (includes Csv.COMMA (after_comma text) = false ->
         given name = trim (after_comma text)))
  /\ (includes Csv.COMMA text = false ->
      given name = take_while not_space text
      /\ family name = squeeze true (drop_while not_space text)).
Proof.
  intros text name. unfold name, parseName. fold text. split.
  - intros Hc. rewrite Hc. unfold split.
    rewrite split_on_spec. fold not_comma. cbn [app map lookup list_lookup or_empty family given].
    rewrite includes_drop_while in Hc. unfold until_comma, after_comma.
    destruct (drop_while not_comma text) as [|c rest]; [done|].
    rewrite split_on_spec. fold not_comma.
    cbn [app map lookup list_lookup or_empty tail].
    split; [done|]. split; [done|].
    intros Hr. by rewrite (includes_false_take _ Hr).
  - intros Hc. rewrite Hc. unfold split_ws.
    destruct text as [|c0 text0] eqn:Etext; [done|]. rewrite <- Etext. clear Etext.
    rewrite split_ws_on_false. cbn [app].
    destruct (drop_while not_space text) as [|c rest] eqn:E.
    + cbn. by rewrite (drop_while_nil_take _ _ E).
    + pose proof (split_ws_on_nonempty [] true rest) as Hne.
      destruct (split_ws_on [] true rest) as [|p ps] eqn:Ep; [done|].
      cbn [length Nat.leb lookup list_lookup or_empty skipn given family].
      split; [done|]. rewrite <- Ep.
      change (lit " ") with [32%N].
      rewrite (proj2 (join_split_ws_on rest) []). cbn [app squeeze].
      apply drop_while_head in E. unfold not_space in E.
      apply negb_false_iff in E. by rewrite E.
Qed.

(** The theorem at a text with a comma and at one without. *)
Lemma parseName_splits_witness :
  includes Csv.COMMA (trim (lit " Doe, Jane ")) = true
  /\ family (parseName (lit " Doe, Jane ")) = lit "Doe"
  /\ given (parseName (lit " Doe, Jane ")) = lit "Jane"
  /\ includes Csv.COMMA (trim (lit "Mary Ann  Smith")) = false
  /\ given (parseName (lit "Mary Ann  Smith")) = lit "Mary"
  /\ family (parseName (lit "Mary Ann  Smith")) = lit "Ann Smith".
Proof.
  destruct (parseName_splits (lit " Doe, Jane ")) as [Hcomma _].
  destruct (parseName_splits (lit "Mary Ann  Smith")) as [_ Hspace].
  destruct (Hcomma eq_refl) as (Hf & Hg & _).
  destruct (Hspace eq_refl) as (Hg' & Hf').
  exact (conj eq_refl (conj Hf (conj Hg (conj eq_refl (conj Hg' Hf'))))).
Defined.

(** C8 as stated fails: in a text with two commas the given name is not
    all that stands right of the comma. *)
Lemma parseName_right_of_comma_counterexample :
  ~ (forall textContent,
       includes Csv.COMMA (trim textContent) = true ->
       family (parseName textContent) = trim (until_comma (trim textContent))
       /\ given (parseName textContent) = trim (after_comma (trim textContent))).
Proof.
  intros Hclaim. destruct (Hclaim (lit "Doe, Jane, Jr") eq_refl) as [_ Hg].
  vm_compute in Hg. discriminate Hg.
Qed.

End roster_properties.

(** ** The detail crawler *)

Section crawler_properties.
Import JS Model Crawler CrawlerSpec.

Implicit Types (r : DeepStudentRecord) (doc : document).




















(** The two dictionaries are keyed by label: there a later pair with the
    same label replaces the earlier entry. *)
Lemma extra_last_pair_wins :
  let r := processLabelValue (lit "Locker") (lit "15")
             (processLabelValue (lit "Locker:") (lit "12")
                (initial_record (lit "482"))) in
  d_extra r !! lit "Locker" = Some (lit "15").
Proof. by vm_compute. Qed.


Section crawl.
Variable net : nat -> jsstring -> fetch_outcome.
Variable parseFromString : jsstring -> document.

Lemma fetch_item_spec k l :
  exists evs,
    fetchAndScrapeProfile net parseFromString k (link_url l) (link_sourcedId l)
    = (Returns (item_record net parseFromString k l), evs)
    /\ fetched evs = [link_url l] /\ reported evs = [].
Proof.
  unfold fetchAndScrapeProfile, fetch_try, item_record.
  destruct (net k (link_url l)) as [name msg|status [html|]].
  - eexists. split; [reflexivity|]. by case_bool_decide.
  - destruct (ok status); cbn [negb]; [|by eexists].
    destruct (scrapeProfilePage _ _); [by eexists|].
    eexists. split; [reflexivity|]. by case_bool_decide.
  - destruct (ok status); cbn [negb]; [|by eexists].
    eexists. split; [reflexivity|]. by case_bool_decide.
Qed.

Lemma crawl_from_spec i total links results trace :
  exists evs,
    crawl_from net parseFromString i total links results trace
    = (results ++ records_from net parseFromString i links, trace ++ evs)
    /\ fetched evs = map link_url links
    /\ reported evs = reports_from i total links.
Proof.
  revert i results trace. induction links as [|l links IH]; intros i results trace.
  - exists []. by rewrite !app_nil_r.
  - cbn [crawl_from records_from reports_from map].
    destruct (fetch_item_spec i l) as (evs & -> & Hf & Hr).
    set (pause := if (i <? total - 1)%nat then [Sleep CRAWL_DELAY_MS] else []).
    destruct (item_record net parseFromString i l) as [record|].
    + destruct (IH (S i) (results ++ [record])
                  ((trace ++ [OnProgress (i + 1) total (link_name l)]) ++ evs ++ pause))
        as (evs' & Heq & Hf' & Hr').
      exists ([OnProgress (i + 1) total (link_name l)] ++ evs ++ pause ++ evs').
      split.
      * unfold pause in *. destruct (i <? total - 1)%nat;
          rewrite <- ?app_assoc in *; cbn [app] in *;
          rewrite ?app_nil_r in *; rewrite Heq; by rewrite <- ?app_assoc.
      * unfold fetched, reported in *. rewrite !omap_app, Hf, Hf', Hr, Hr'.
        unfold pause. by destruct (i <? total - 1)%nat.
    + destruct (IH (S i) results
                  ((trace ++ [OnProgress (i + 1) total (link_name l)]) ++ evs ++ pause))
        as (evs' & Heq & Hf' & Hr').
      exists ([OnProgress (i + 1) total (link_name l)] ++ evs ++ pause ++ evs').
      split.
      * unfold pause in *. destruct (i <? total - 1)%nat;
          rewrite <- ?app_assoc in *; cbn [app] in *;
          rewrite ?app_nil_r in *; rewrite Heq; by rewrite <- ?app_assoc.
      * unfold fetched, reported in *. rewrite !omap_app, Hf, Hf', Hr, Hr'.
        unfold pause. by destruct (i <? total - 1)%nat.
Qed.

Lemma records_from_elem k links j l record :
  links !! j = Some l ->
  item_record net parseFromString (k + j) l = Some record ->
  record ∈ records_from net parseFromString k links.
Proof.
  revert k j. induction links as [|x links IH]; intros k j Hl Hr; [done|].
  destruct j as [|j]; cbn in Hl.
  - injection Hl as ->. rewrite Nat.add_0_r in Hr. cbn. rewrite Hr. left.
  - cbn. replace (k + S j) with (S k + j) in Hr by lia.
    destruct (item_record net parseFromString k x);
      [right|]; by eapply IH.
Qed.

(** C7: [deepCrawl] returns normally for every list of links and every
    behaviour of the network; each link is announced and fetched once, in
    order, whatever happened to the links before it; and the records
    returned are exactly those of the items that succeeded, in order, so an
    item that fails (the request rejects or times out, the status is not
    2xx, the body cannot be read or scraped) only leaves its own record
    out. *)
Theorem deepCrawl_isolates_failures (links : list link) :
  exists trace,
    deepCrawl net parseFromString links
    = (Returns (records_from net parseFromString 0 links), trace)
    /\ fetched trace = map link_url links
    /\ reported trace = reports_from 0 (length links) links
    /\ (forall j l, links !! j = Some l -> link_url l ∈ fetched trace)
    /\ (forall j l record, links !! j = Some l ->
          item_record net parseFromString j l = Some record ->
          record ∈ records_from net parseFromString 0 links).
Proof.
  assert (Hrest : forall trace, fetched trace = map link_url links ->
            (forall j l, links !! j = Some l -> link_url l ∈ fetched trace)
            /\ (forall j l record, links !! j = Some l ->
                  item_record net parseFromString j l = Some record ->
                  record ∈ records_from net parseFromString 0 links)).
  { intros trace Hf. split.
    - intros j l Hl. rewrite Hf. apply list_elem_of_In, in_map, list_elem_of_In.
      by eapply list_elem_of_lookup_2.
    - intros j l record Hl Hr. by apply (records_from_elem 0 links j l). }
  unfold deepCrawl. destruct links as [|l links'] eqn:E.
  - exists []. split; [done|]. split; [done|]. split; [done|]. by apply Hrest.
  - rewrite <- E in *.
    destruct (crawl_from_spec 0 (length links) links [] []) as (evs & -> & Hf & Hr).
    exists evs. cbn [app]. rewrite E at 1. rewrite <- E.
    split; [done|]. split; [done|]. split; [done|]. by apply Hrest.
Qed.

End crawl.

(** The theorem at three links of which the second times out and the third
    is not found: one record, three fetches. *)
Lemma deepCrawl_isolates_failures_witness :
  exists trace record,
    deepCrawl Examples.flaky (fun _ => Examples.profile_page) Examples.three_links
    = (Returns [record], trace)
    /\ Examples.three_links !! 0%nat = Some (Crawler.mkLink (lit "482") (lit "Jane Doe")
                                           (lit "https://sis.example/students/482"))
    /\ record ∈ records_from Examples.flaky (fun _ => Examples.profile_page) 0
                 Examples.three_links
    /\ length (fetched trace) = 3%nat.
Proof.
  destruct (deepCrawl_isolates_failures Examples.flaky (fun _ => Examples.profile_page)
              Examples.three_links) as (trace & Heq & Hf & _ & _ & Hin).
  destruct (item_record Examples.flaky (fun _ => Examples.profile_page) 0
              (Crawler.mkLink (lit "482") (lit "Jane Doe")
                 (lit "https://sis.example/students/482"))) as [record|] eqn:E;
    [|by vm_compute in E].
  exists trace, record. split.
  - rewrite Heq. f_equal. f_equal. cbn [records_from Examples.three_links].
    rewrite E. reflexivity.
  - split; [reflexivity|]. split; [exact (Hin 0%nat _ record eq_refl E)|].
    rewrite Hf. reflexivity.
Defined.

End crawler_properties.

(** ** The token storage *)

Section storage_properties.
Import JS Storage.

Section with_platform.
Context `{WebCrypto}.

Lemma truthy_nonempty (t : jsstring) : t ≠ [] -> truthy (Some t) = true.
Proof. by destruct t. Qed.

Lemma getToken_cached st token p :
  _sessionToken st = Some token -> token ≠ [] ->
  getToken p st = (Some token, st).
Proof.
  intros Hs Hne. unfold getToken. rewrite Hs, truthy_nonempty by done. done.
Qed.

Lemma getToken_cleared st p t :
  (getToken p (clearSession st)).1 = Some t
  <-> exists pass enc,
        p = Some pass /\ pass ≠ [] /\ encrypted_token st = Some enc /\ enc ≠ []
        /\ Crypto.decrypt enc pass = Some t.
Proof.
  unfold getToken, clearSession. cbn [_sessionToken encrypted_token truthy].
  destruct p as [[|c pass]|]; cbn [truthy negb or_empty].
  - split; [done|]. intros (? & ? & [= <-] & ? & _); done.
  - destruct (encrypted_token st) as [[|e enc]|]; cbn [truthy negb or_empty].
    + split; [done|]. intros (? & ? & _ & _ & [= <-] & ? & _); done.
    + destruct (Crypto.decrypt (e :: enc) (c :: pass)) as [t'|] eqn:E; cbn [fst].
      * split.
        -- intros [= ->]. by exists (c :: pass), (e :: enc).
        -- intros (? & ? & [= <-] & _ & [= <-] & _ & Hd). congruence.
      * split; [done|]. intros (? & ? & [= <-] & _ & [= <-] & _ & Hd). congruence.
    + split; [done|]. intros (? & ? & _ & _ & ? & _); done.
  - split; [done|]. intros (? & ? & ? & _); done.
Qed.

(** C10 (amended): once a non-empty token is cached in the session, be it
    by [setToken] or by a [getToken] that decrypted the stored blob, every
    later [getToken] returns that token and leaves the state as it is,
    whatever passphrase it is given (a wrong one, none at all) and whatever
    the stored blob is; after [clearSession], [getToken] returns a token
    exactly when it is given a non-empty passphrase that decrypts the
    stored blob. *)
Theorem cached_token_needs_no_passphrase :
  (forall st token p,
     _sessionToken st = Some token -> token ≠ [] ->
     getToken p st = (Some token, st))
  /\ (forall salt iv token passphrase st p,
       token ≠ [] ->
       getToken p (setToken salt iv token passphrase st)
       = (Some token, setToken salt iv token passphrase st))
  /\ (forall st p token st' q,
       truthy (_sessionToken st) = false ->
       getToken p st = (Some token, st') -> token ≠ [] ->
       getToken q st' = (Some token, st'))
  /\ (forall st p t,
       (getToken p (clearSession st)).1 = Some t
       <-> exists pass enc,
             p = Some pass /\ pass ≠ [] /\ encrypted_token st = Some enc
             /\ enc ≠ [] /\ Crypto.decrypt enc pass = Some t).
Proof.
  split; [apply getToken_cached|]. split; [|split; [|apply getToken_cleared]].
  - intros salt iv token passphrase st p Hne. by apply getToken_cached.
  - intros st p token st' q Hs Hget Hne. apply getToken_cached; [|done].
    unfold getToken in Hget. rewrite Hs in Hget.
    destruct (negb (truthy p)); [done|].
    destruct (negb (truthy (encrypted_token st))); [done|].
    destruct (Crypto.decrypt _ _); [|done]. by injection Hget as -> <-.
Qed.

End with_platform.

(** The theorem on the stand-in platform: a cached token is served for a
    wrong and for no passphrase; after [clearSession] only the right
    passphrase recovers it. *)
Lemma cached_token_needs_no_passphrase_witness :
  let st := Storage.setToken (H := Examples.toy_platform) (repeat 1%N 16) (repeat 2%N 12)
              (lit "tok") (lit "pass")
              (Storage.mkState None None (Some (lit "https://capsule.example"))) in
  lit "tok" ≠ []
  /\ getToken (H := Examples.toy_platform) (Some (lit "wrong")) st = (Some (lit "tok"), st)
  /\ getToken (H := Examples.toy_platform) None st = (Some (lit "tok"), st)
  /\ (getToken (H := Examples.toy_platform) (Some (lit "wrong")) (clearSession st)).1 = None
  /\ (getToken (H := Examples.toy_platform) (Some (lit "pass")) (clearSession st)).1
     = Some (lit "tok").
Proof.
  intros st.
  destruct (cached_token_needs_no_passphrase (H := Examples.toy_platform))
    as (_ & Hset & _ & Hclear).
  assert (Hne : lit "tok" ≠ []) by discriminate.
  split; [exact Hne|]. split; [exact (Hset _ _ _ _ _ _ Hne)|].
  split; [exact (Hset _ _ _ _ _ _ Hne)|]. split; [reflexivity|].
  apply Hclear. exists (lit "pass"), (or_empty (encrypted_token st)).
  split; [reflexivity|]. split; [discriminate|]. split; [reflexivity|].
  split; [vm_compute; discriminate|]. vm_compute. reflexivity.
Defined.

(** C10 as stated fails: an empty token stored by [setToken] is not
    returned by a later [getToken] without passphrase. *)
Lemma cached_empty_token_counterexample :
  ~ (forall (platform : WebCrypto) salt iv token passphrase st p,
       (getToken (H := platform) p
          (setToken (H := platform) salt iv token passphrase st)).1 = Some token).
Proof.
  intros Hclaim.
  specialize (Hclaim Examples.toy_platform [] [] [] (lit "pass")
                (Storage.mkState None None None) None).
  vm_compute in Hclaim. discriminate Hclaim.
Qed.

End storage_properties.

(** ** The fallback ids of the roster parser *)

Section roster_id_properties.
Import JS Model Roster RosterSpec.

Lemma digits_fuel_number fuel n acc :
  (n < 2 ^ N.of_nat fuel)%N ->
  fold_left (fun v d => 10 * v + (d - 48))%N (digits_fuel fuel n acc) 0%N
  = fold_left (fun v d => 10 * v + (d - 48))%N acc n.
Proof.
  revert n acc. induction fuel as [|fuel IH]; intros n acc Hn.
  - change (2 ^ N.of_nat 0)%N with 1%N in Hn. by replace n with 0%N by lia.
  - cbn [digits_fuel]. rewrite Nat2N.inj_succ, N.pow_succ_r' in Hn.
    destruct (N.ltb_spec n 10) as [Hlt|Hge].
    + cbn [fold_left]. f_equal. cbn beta. rewrite N.mod_small by done. lia.
    + rewrite IH.
      * cbn [fold_left]. f_equal. cbn beta.
        pose proof (N.Div0.div_mod n 10) as Hdm.
        set (q := (n / 10)%N) in *. set (m := (n mod 10)%N) in *. clearbody q m. lia.
      * assert (n / 10 <= n / 2)%N; [|].
        { apply N.div_le_compat_l. lia. }
        assert (n / 2 < 2 ^ N.of_nat fuel)%N; [|lia].
        apply N.Div0.div_lt_upper_bound. lia.
Qed.

Lemma decimal_number n : number (decimal n) = n.
Proof.
  unfold number, decimal. rewrite digits_fuel_number; [done|].
  rewrite Nat2N.inj_succ, N2Nat.id.
  destruct (N.eq_dec n 0%N) as [->|Hn]; [done|].
  apply N.log2_spec. lia.
Qed.

Lemma digits_fuel_digits fuel n acc :
  Forall (fun c => is_digit c = true) acc ->
  Forall (fun c => is_digit c = true) (digits_fuel fuel n acc).
Proof.
  revert n acc. induction fuel as [|fuel IH]; intros n acc Hacc; [done|].
  cbn [digits_fuel].
  assert (Forall (fun c => is_digit c = true) ((48 + n mod 10)%N :: acc)) as Hacc'.
  { constructor; [|done]. unfold is_digit.
    assert (n mod 10 < 10)%N as Hm by (by apply N.mod_lt).
    set (m := (n mod 10)%N) in *. clearbody m.
    apply andb_true_iff. split; apply N.leb_le; lia. }
  destruct (n <? 10)%N; [done|]. by apply IH.
Qed.

Lemma take_while_stop p ds c rest :
  Forall (fun d => p d = true) ds -> p c = false ->
  take_while p (ds ++ c :: rest) = ds.
Proof.
  intros Hds Hc. induction Hds as [|d ds Hd _ IH]; cbn.
  - by rewrite Hc.
  - by rewrite Hd, IH.
Qed.

(** The roster parser's fallback ids of two different rows differ, whatever
    the names in them. *)
Lemma roster_synthesized_ids_distinct record1 record2 r1 r2 :
  r1 ≠ r2 -> synthesize_id record1 r1 ≠ synthesize_id record2 r2.
Proof.
  intros Hr Heq. apply Hr. unfold synthesize_id in Heq.
  apply (f_equal (@rev N)) in Heq. rewrite !rev_app_distr in Heq.
  change (rev (lit "_")) with [95%N] in Heq.
  rewrite <- !app_assoc in Heq. cbn [app] in Heq.
  apply (f_equal (take_while is_digit)) in Heq.
  rewrite !take_while_stop in Heq;
    try done; try (apply Forall_rev, digits_fuel_digits; constructor).
  apply (f_equal (@rev N)) in Heq. rewrite !rev_involutive in Heq.
  apply (f_equal number) in Heq. rewrite !decimal_number in Heq. lia.
Qed.

(** A roster with the same name in two rows: the two records get different
    ids, and a link in the name cell gives the id. *)
Lemma roster_duplicate_names :
  let c := fun s => mkCell (lit s) None in
  let table :=
    [[c "Student"; c "Grade"];
     [c "Doe, Jane"; c "5"];
     [mkCell (lit "Ray, Bob") (Some (lit "/admin/students/482")); c "6"];
     [c "Doe, Jane"; c "6"]] in
  map sourcedId (parseRoster (mkPage (fun _ => None) [table]))
  = [lit "ps_doe_jane_1"; lit "482"; lit "ps_doe_jane_3"].
Proof. vm_compute. reflexivity. Qed.

End roster_id_properties.

(** ** The byte order mark in front of a CSV text *)

Section csv_bom_properties.
Import JS Model Csv CsvSpec.

Implicit Types (s : scanner) (rest t : jsstring).

Lemma scan_unfold c rest s :
  scan (c :: rest) s
  = if (c =? QUOTE)%N then
      if inQuotes s && bool_decide (head rest = Some QUOTE)
      then scan (tail rest) (push QUOTE s)
      else scan rest (toggle s)
    else if (c =? COMMA)%N && negb (inQuotes s) then scan rest (comma s)
    else if ((c =? LF)%N || (c =? CR)%N) && negb (inQuotes s) then
      if (c =? CR)%N && bool_decide (head rest = Some LF)
      then scan (tail rest) (end_of_line s)
      else scan rest (end_of_line s)
    else scan rest (push c s).
Proof.
  cbn [scan]. destruct (c =? QUOTE)%N.
  - destruct rest as [|next rest']; cbn [head tail].
    + rewrite bool_decide_eq_false_2 by done. by rewrite andb_false_r.
    + destruct (N.eqb_spec next QUOTE) as [->|Hn].
      * by rewrite bool_decide_eq_true_2.
      * rewrite bool_decide_eq_false_2 by congruence. done.
  - destruct ((c =? COMMA)%N && negb (inQuotes s)); [done|].
    destruct (((c =? LF)%N || (c =? CR)%N) && negb (inQuotes s)); [|done].
    destruct rest as [|next rest']; cbn [head tail].
    + rewrite bool_decide_eq_false_2 by done. by rewrite andb_false_r.
    + destruct (N.eqb_spec next LF) as [->|Hn].
      * by rewrite bool_decide_eq_true_2.
      * rewrite bool_decide_eq_false_2 by congruence. done.
Qed.

Lemma mark_push c s : mark (push c s) = push c (mark s) /\ started (push c s).
Proof.
  unfold mark, push, started. destruct s as [[|[|f r] R] [|g l] cur q]; cbn;
    rewrite ?orb_true_r; try done; by destruct cur.
Qed.

Lemma mark_toggle s : mark (toggle s) = toggle (mark s).
Proof. unfold mark, toggle. by destruct s as [[|[|f r] R] [|g l] cur q]. Qed.

Lemma mark_comma s : mark (comma s) = comma (mark s) /\ started (comma s).
Proof.
  unfold mark, comma, started. destruct s as [[|[|f r] R] [|g l] cur q]; cbn;
    rewrite ?orb_true_r; done.
Qed.

Lemma mark_end_of_line s :
  started s ->
  mark (end_of_line s) = end_of_line (mark s) /\ started (end_of_line s).
Proof.
  unfold mark, end_of_line, started.
  destruct s as [[|[|f r] R] [|g l] [|c cur] q]; cbn; try done.
Qed.

Lemma mark_inQuotes s : inQuotes (mark s) = inQuotes s.
Proof. unfold mark. by destruct s as [[|[|f r] R] [|g l] cur q]. Qed.

(** Scanning commutes with marking once a first field has been seen. *)
Lemma scan_mark n t s :
  (length t <= n)%nat -> started s ->
  scan t (mark s) = mark (scan t s) /\ started (scan t s).
Proof.
  revert t s. induction n as [|n IH]; intros t s Hlen Hs.
  - destruct t; [done|cbn in Hlen; lia].
  - destruct t as [|c rest]; [done|]. cbn [length] in Hlen.
    assert (Hrest : (length rest <= n)%nat) by lia.
    assert (Htail : (length (tail rest) <= n)%nat)
      by (destruct rest; cbn [tail length] in *; lia).
    rewrite !scan_unfold, mark_inQuotes.
    destruct (mark_push QUOTE s) as [Hpq Hsq].
    destruct (mark_push c s) as [Hpc Hsc].
    destruct (mark_comma s) as [Hco Hsco].
    destruct (mark_end_of_line s Hs) as [Heol Hseol].
    assert (Htog : started (toggle s)) by exact Hs.
    rewrite <- Hpq, <- Hpc, <- Hco, <- Heol, <- mark_toggle.
    repeat match goal with |- context [if ?b then _ else _] => destruct b end;
      by apply IH.
Qed.

Lemma trim_mark f : trim (BOM :: f) = trim f.
Proof. reflexivity. Qed.

Lemma scan_bom c t :
  starts_plainly (c :: t) = true ->
  scan (BOM :: c :: t) (mkScanner [] [] [] false)
  = mark (scan (c :: t) (mkScanner [] [] [] false))
  /\ started (scan (c :: t) (mkScanner [] [] [] false)).
Proof.
  intros Hc. cbn [starts_plainly] in Hc. apply negb_true_iff in Hc.
  apply orb_false_iff in Hc as [Hc Hcr]. apply orb_false_iff in Hc as [Hq Hlf].
  rewrite (scan_unfold BOM). cbn [N.eqb BOM QUOTE COMMA LF CR Pos.eqb andb orb].
  rewrite !(scan_unfold c), Hq, Hlf, Hcr. cbn [inQuotes negb andb orb push].
  destruct (c =? COMMA)%N.
  - by apply (scan_mark (length t) t (comma (mkScanner [] [] [] false))).
  - by apply (scan_mark (length t) t (push c (mkScanner [] [] [] false))).
Qed.

Lemma all_rows_mark c t :
  starts_plainly (c :: t) = true ->
  all_rows (BOM :: c :: t) = mark_rows (all_rows (c :: t)).
Proof.
  intros Hc. unfold all_rows. destruct (scan_bom c t Hc) as [-> Hs]. revert Hs.
  generalize (scan (c :: t) (mkScanner [] [] [] false)).
  intros s. unfold started, mark.
  destruct s as [[|[|f r] R] [|g l] [|d cur] q]; cbn; done.
Qed.

Lemma parseCSV_mark c t :
  starts_plainly (c :: t) = true -> parseCSV (BOM :: c :: t) = parseCSV (c :: t).
Proof.
  intros Ht. unfold parseCSV. rewrite (all_rows_mark c t Ht).
  destruct (all_rows (c :: t)) as [|[|f r] R]; done.
Qed.

(** Where the byte order mark is harmless: in front of a text that does
    not begin with a quote or a line break (nor with the three code units
    the pattern of [strip_bom] removes) the parser returns the same
    records. *)
Lemma parseExportCSV_bom_harmless t :
  starts_plainly t = true -> strip_bom t = t ->
  parseExportCSV (BOM :: t) = parseExportCSV t.
Proof.
  intros Ht Hs. destruct t as [|c t]; [reflexivity|].
  unfold parseExportCSV. rewrite Hs.
  change (strip_bom (BOM :: c :: t)) with (BOM :: c :: t).
  by rewrite parseCSV_mark.
Qed.

End csv_bom_properties.

Section sync_more_properties.
Import JS Model Sync SyncSpec.

Lemma total_size_split net endpoint token (nbs : list (nat * list StudentRecord)) :
  total_size (succeeded net endpoint token nbs)
  + total_size (rejected net endpoint token nbs)
  = total_size nbs.
Proof.
  unfold succeeded, rejected, total_size.
  induction nbs as [|kb nbs IH]; [done|].
  rewrite !filter_cons. cbn [sum_list_with].
  destruct (delivered (outcome_of net endpoint token kb)) eqn:E.
  - rewrite decide_True by done. rewrite decide_False by done.
    cbn [sum_list_with]. lia.
  - rewrite decide_False by done. rewrite decide_True by done.
    cbn [sum_list_with]. lia.
Qed.

Lemma total_size_batches (students : list StudentRecord) :
  total_size (numbered_batches 50 students) = length students.
Proof.
  rewrite <- (batches_concat students) at 2.
  unfold batches, total_size.
  induction (numbered_batches 50 students) as [|kb nbs IH]; [done|].
  cbn [map concat sum_list_with]. rewrite length_app. lia.
Qed.

Lemma rejected_length net endpoint token (nbs : list (nat * list StudentRecord)) :
  length (rejected net endpoint token nbs) <= length nbs.
Proof. unfold rejected. apply length_filter. Qed.

Lemma send_batches_total net endpoint token students http_error thrown reports :
  let '(res, trace) :=
    send_batches net endpoint token students http_error thrown reports in
  success res + failed res = length students
  /\ length (errors res) <= length (posts trace)
  /\ length (posts trace) = (length students + 50 - 1) / 50.
Proof.
  rewrite send_batches_spec. unfold expected_result. cbn [success failed errors].
  rewrite total_size_split, total_size_batches, posts_expected, !length_map.
  split; [done|]. split; [apply rejected_length|].
  unfold numbered_batches. by rewrite length_map, length_seq.
Qed.

Section with_platform.
Context `{WebCrypto}.

(** Every record is counted once: [pushToCapsule] always answers with
    success + failed = number of records, and sends nothing when the
    configuration or the passphrase is missing; [syncStudents] either throws
    before it sends anything or returns such a count, having sent one
    request per batch of 50. *)
Theorem sync_counts_every_record net (students : list StudentRecord) :
  (forall passphrase st,
     let '(res, trace) := pushToCapsule net students passphrase st in
     success res + failed res = length students
     /\ length (errors res) <= Nat.max 1 (length (posts trace))
     /\ (posts trace ≠ [] ->
         truthy (Storage.capsule_endpoint st) = true
         /\ exists token,
              decryptToken (or_empty (Storage.encrypted_token st)) passphrase
              = Some token))
  /\ (forall passphrase st,
       let '(outcome, st', trace) := syncStudents net students passphrase st in
       match outcome with
       | Throws _ => trace = []
       | Returns res =>
           success res + failed res = length students
           /\ length (errors res) <= length (posts trace)
           /\ length (posts trace) = (length students + 50 - 1) / 50
           /\ truthy (fst (Storage.getToken passphrase st)) = true
       end).
Proof.
  split.
  - intros passphrase st. unfold pushToCapsule.
    destruct (negb (truthy (Storage.capsule_endpoint st))
              || negb (truthy (Storage.encrypted_token st))) eqn:Ecfg.
    { cbn. split; [done|]. split; [lia|done]. }
    apply orb_false_iff in Ecfg as [Hend Henc]. apply negb_false_iff in Hend.
    destruct (decryptToken _ passphrase) as [token|] eqn:Edec.
    + pose proof (send_batches_total net (or_empty (Storage.capsule_endpoint st))
                    token students
                    (fun _ status text =>
                       lit "HTTP " ++ decimal status ++ lit ": "
                       ++ firstn 200 (match text with Some body => body | None => [] end))
                    (fun _ message => message) false) as Htot.
      destruct (send_batches _ _ _ _ _ _ _) as [res trace].
      destruct Htot as (Hsum & Herr & _).
      split; [done|]. split; [lia|]. intros _. split; [done|]. by exists token.
    + cbn. split; [done|]. split; [lia|done].
  - intros passphrase st. unfold syncStudents.
    destruct (Storage.getToken passphrase st) as [token st'] eqn:Etok.
    destruct (truthy token) eqn:Et; cbn [negb]; [|done].
    destruct (truthy (Storage.capsuleEndpoint st')) eqn:Ee; cbn [negb]; [|done].
    match goal with
    | |- context [send_batches ?n ?e ?t ?s ?h ?th ?r] =>
        pose proof (send_batches_total n e t s h th r) as Htot;
        destruct (send_batches n e t s h th r) as [res trace]
    end.
    destruct Htot as (Hsum & Herr & Hn). done.
Qed.

End with_platform.

Lemma sync_counts_every_record_witness :
  (let '(res, trace) :=
     pushToCapsule (H := Examples.toy_platform) Examples.second_fails
       (repeat Examples.jane 120) (lit "pass") Examples.stored in
   success res + failed res = 120 /\ posts trace ≠ [])
  /\ (let '(res, trace) :=
        pushToCapsule (H := Examples.toy_platform) Examples.second_fails
          (repeat Examples.jane 120) (lit "wrong") Examples.stored in
      success res + failed res = 120 /\ posts trace = []).
Proof.
  destruct (sync_counts_every_record (H := Examples.toy_platform)
              Examples.second_fails (repeat Examples.jane 120)) as [Hpush _].
  split.
  - specialize (Hpush (lit "pass") Examples.stored).
    destruct (pushToCapsule _ _ _ _) as [res trace] eqn:E.
    destruct Hpush as (Hsum & _). split; [exact Hsum|].
    intros Hnil. apply (f_equal (fun p => length (posts (snd p)))) in E.
    cbn [snd] in E. rewrite Hnil in E. vm_compute in E. discriminate E.
  - specialize (Hpush (lit "wrong") Examples.stored).
    destruct (pushToCapsule _ _ _ _) as [res trace] eqn:E.
    destruct Hpush as (Hsum & _ & Hcfg). split; [exact Hsum|].
    destruct (posts trace) as [|r l] eqn:Ep; [done|].
    destruct Hcfg as (_ & token & Hdec); [done|].
    vm_compute in Hdec. discriminate Hdec.
Defined.

End sync_more_properties.

Section worker_properties.
Import JS Model Sync SyncSpec Spec Differ Worker.

Lemma posts_send_batches net endpoint token students http_error thrown reports :
  concat (map students_sent
            (posts (snd (send_batches net endpoint token students
                           http_error thrown reports))))
  = students.
Proof.
  rewrite send_batches_spec. cbn [snd]. rewrite posts_expected, map_map.
  cbn [request_of students_sent].
  rewrite <- (batches_concat students) at 2. unfold batches.
  reflexivity.
Qed.

(** A second pass over distinct records finds nothing changed. *)
Lemma diff_again students prior :
  NoDup (map sourcedId students) ->
  fst (diffStudents students (snd (diffStudents students prior))) = [].
Proof.
  intros Hnd. rewrite !diff_pair. cbn [fst snd].
  destruct (filter _ students) as [|s l] eqn:E; [done|].
  assert (s ∈ filter (fun s => index_of hashStudent students ∅ !! sourcedId s
                               ≠ Some (hashStudent s)) students) as Hs
    by (rewrite E; left).
  apply list_elem_of_filter in Hs as [Hne Hin]. destruct Hne.
  rewrite index_lookup_last, last_with_id_unique by done. done.
Qed.

Section with_platform.
Context `{WebCrypto}.

(** The worker's sync sends the changed records and only them: it answers
    with their number; when nothing changed it sends nothing and leaves the
    store as it was; otherwise the requests it sends carry, in order, exactly
    the changed records (or it sends none, the push being refused), the hash
    index is replaced by the new one and the log entry counts the changed
    records. *)
Theorem syncStudentData_sends_changes net now students passphrase s :
  let prior := match student_hashes s with Some h => h | None => ∅ end in
  let changed := fst (diffStudentsInWorker students prior) in
  let newHashes := snd (diffStudentsInWorker students prior) in
  let '(resp, s', trace) := syncStudentData net now students passphrase s in
  r_count resp = length changed
  /\ (changed = [] ->
      trace = [] /\ s' = s /\ r_success resp = true
      /\ r_message resp = Some (lit "No changes detected"))
  /\ (posts trace = [] \/ concat (map students_sent (posts trace)) = changed)
  /\ (changed ≠ [] ->
      student_hashes s' = Some newHashes
      /\ config s' = config s
      /\ r_total resp = Some (length students)
      /\ exists e, Settings.last_sync (history s') = Some e
                   /\ timestamp e = now
                   /\ studentCount e = length changed
                   /\ (r_success resp = true <-> status e = lit "success")).
Proof.
  intros prior changed newHashes. unfold syncStudentData. fold prior.
  destruct (diffStudentsInWorker students prior) as [ch nh] eqn:Ed.
  subst changed newHashes. cbn [fst snd].
  destruct ch as [|c ch].
  - cbn. split; [done|]. split; [done|]. split; [by left|]. done.
  - cbn [length Nat.eqb].
    destruct (pushToCapsule net (c :: ch) passphrase (config s))
      as [syncResult trace] eqn:Ep.
    split; [done|]. split; [done|]. split.
    + unfold pushToCapsule in Ep.
      destruct (negb _ || negb _); [injection Ep as _ <-; by left|].
      destruct (decryptToken _ _) as [token|]; [|injection Ep as _ <-; by left].
      right. apply (f_equal snd) in Ep. cbn [snd] in Ep. rewrite <- Ep.
      apply posts_send_batches.
    + intros _. cbn. split; [done|]. split; [done|]. split; [done|].
      eexists. split; [reflexivity|]. cbn. split; [done|]. split; [done|].
      destruct (failed syncResult); cbn; [done|]. split; intros Hx; discriminate Hx.
Qed.

(** Records whose push failed are not sent again: after one sync of records
    with distinct ids, whatever the network and the passphrase did, a second
    sync of the same records finds no change and sends nothing. *)
Theorem failed_push_is_not_retried net now students passphrase s
    net' now' passphrase' :
  NoDup (map sourcedId students) ->
  let s1 := snd (fst (syncStudentData net now students passphrase s)) in
  syncStudentData net' now' students passphrase' s1
  = (mkResponse true 0 None None (Some (lit "No changes detected")), s1, []).
Proof.
  intros Hnd s1.
  assert (fst (diffStudentsInWorker students
                 (match student_hashes s1 with Some h => h | None => ∅ end)) = [])
    as Hnone.
  { subst s1. unfold syncStudentData.
    destruct (diffStudentsInWorker students
                (match student_hashes s with Some h => h | None => ∅ end))
      as [ch nh] eqn:Ed.
    destruct (length ch =? 0)%nat eqn:El.
    - cbn [fst snd]. rewrite Ed. cbn [fst].
      apply Nat.eqb_eq in El. by destruct ch.
    - destruct (pushToCapsule net ch passphrase (config s)) as [r t].
      cbn [fst snd recordSyncEntry student_hashes].
      apply (f_equal snd) in Ed. cbn [snd] in Ed. rewrite <- Ed.
      by apply diff_again. }
  unfold syncStudentData.
  destruct (diffStudentsInWorker students _) as [ch nh].
  cbn [fst] in Hnone. by subst ch.
Qed.

End with_platform.

Lemma failed_push_is_not_retried_witness :
  let s0 := mkStore Examples.stored None (Settings.mkHistory None None) in
  let run1 := syncStudentData (H := Examples.toy_platform) Samples.offline 5%N
                [Examples.jane; Examples.bob] (lit "pass") s0 in
  r_success (fst (fst run1)) = false
  /\ length (posts (snd run1)) = 1
  /\ syncStudentData (H := Examples.toy_platform) Examples.second_fails 6%N
       [Examples.jane; Examples.bob] (lit "pass") (snd (fst run1))
     = (mkResponse true 0 None None (Some (lit "No changes detected")),
        snd (fst run1), []).
Proof.
  intros s0 run1. split; [vm_compute; reflexivity|].
  split; [vm_compute; reflexivity|].
  apply (failed_push_is_not_retried (H := Examples.toy_platform) Samples.offline 5%N
           [Examples.jane; Examples.bob] (lit "pass") s0).
  apply (bool_decide_unpack _). vm_compute. exact I.
Defined.

End worker_properties.

Section log_properties.
Import JS Model Settings.

Lemma firstn_cons_firstn {A} (e : A) (l : list A) :
  firstn 50 (e :: firstn 50 l) = firstn 50 (e :: l).
Proof.
  change (firstn 50 (e :: firstn 50 l)) with (e :: firstn 49 (firstn 50 l)).
  change (firstn 50 (e :: l)) with (e :: firstn 49 l).
  f_equal. rewrite firstn_firstn. reflexivity.
Qed.

Lemma syncLog_fold {entry} (es : list entry) (e : entry) h :
  syncLog (fold_left (fun h e => recordSync e h) (es ++ [e]) h)
  = firstn 50 (rev (es ++ [e]) ++ syncLog h).
Proof.
  revert e. induction es as [|e' es IH] using rev_ind; intros e.
  - reflexivity.
  - rewrite fold_left_app. cbn [fold_left].
    change (syncLog (recordSync e ?h)) with (firstn 50 (e :: syncLog h)).
    rewrite IH, firstn_cons_firstn. by rewrite (rev_app_distr (es ++ [e'])).
Qed.

(** The sync log keeps the 50 most recent entries, newest first: after
    recording one or more entries in turn, the log is the first 50 of these
    entries in reverse order followed by the earlier log, and the last sync
    is the entry recorded last.  The service worker's own [recordSyncEntry]
    does the same to its store and touches nothing else. *)
Theorem sync_log_keeps_newest_50 {entry} (es : list entry) h :
  es ≠ [] ->
  let h' := fold_left (fun h e => recordSync e h) es h in
  syncLog h' = firstn 50 (rev es ++ syncLog h)
  /\ length (syncLog h') <= 50
  /\ lastSync h' = last es
  /\ (forall (e : Worker.sync_entry) s,
        Worker.history (Worker.recordSyncEntry e s) = recordSync e (Worker.history s)
        /\ Worker.config (Worker.recordSyncEntry e s) = Worker.config s
        /\ Worker.student_hashes (Worker.recordSyncEntry e s)
           = Worker.student_hashes s).
Proof.
  intros Hne h'. subst h'.
  destruct es as [|e es _] using rev_ind; [done|].
  rewrite syncLog_fold. split; [done|]. split; [apply firstn_le_length|].
  split; [|done].
  rewrite fold_left_app, last_snoc. reflexivity.
Qed.

Lemma sync_log_keeps_newest_50_witness :
  let h' := fold_left (fun h e => recordSync e h) (seq 0 60)
              (mkHistory None (Some [100; 101])) in
  syncLog h' = rev (seq 10 50) /\ lastSync h' = Some 59.
Proof.
  intros h'.
  destruct (sync_log_keeps_newest_50 (seq 0 60) (mkHistory None (Some [100; 101])))
    as (Hlog & _ & Hlast & _); [discriminate|].
  split; [exact Hlog | exact Hlast].
Defined.

End log_properties.

Section crypto_properties.
Import JS Model.

Section with_platform.
Context `{WebCrypto}.

(** What the platform promises: decoding undoes encoding, and decrypting
    under the key and the iv of the encryption gives the plain bytes
    back. *)
Hypothesis atob_btoa : forall bytes, atob (btoa bytes) = Some bytes.
Hypothesis atob_empty : atob [] = Some [].
Hypothesis gcm_inverse : forall key iv plain,
  aes_gcm_decrypt key iv (aes_gcm_encrypt key iv plain) = Some plain.

Lemma decrypt_encrypt salt iv plaintext password :
  length salt = 16 -> length iv = 12 ->
  text_decode (Sha256.utf8 plaintext) = plaintext ->
  Crypto.decrypt (Crypto.encrypt salt iv plaintext password) password
  = Some plaintext.
Proof.
  intros Hs Hi Ht. unfold Crypto.decrypt, Crypto.encrypt.
  rewrite atob_btoa. cbn zeta.
  unfold Crypto.SALT_BYTES, Crypto.IV_BYTES.
  set (c := aes_gcm_encrypt (Crypto.deriveKey password salt) iv
              (Sha256.utf8 plaintext)).
  rewrite (take_app_length' salt (iv ++ c) 16) by done.
  rewrite (drop_app_length' salt (iv ++ c) 16) by done.
  rewrite (take_app_length' iv c 12) by done.
  rewrite (app_assoc salt iv c).
  rewrite (drop_app_length' (salt ++ iv) c (16 + 12))
    by (rewrite length_app; lia).
  subst c. rewrite gcm_inverse. by rewrite Ht.
Qed.

Lemma encrypt_nonempty salt iv plaintext password :
  length salt = 16 -> Crypto.encrypt salt iv plaintext password ≠ [].
Proof.
  intros Hs He. unfold Crypto.encrypt in He.
  pose proof (atob_btoa (salt ++ iv ++ aes_gcm_encrypt
                (Crypto.deriveKey password salt) iv (Sha256.utf8 plaintext))) as Hb.
  rewrite He, atob_empty in Hb. injection Hb as Hb.
  apply (f_equal (@length N)) in Hb. rewrite length_app in Hb.
  cbn [length] in Hb. lia.
Qed.

(** A token stored with [setToken] comes back: once the session is cleared,
    [getToken] with the same non-empty passphrase decrypts the stored copy,
    returns the token and caches it again; without a passphrase it returns
    null.  This holds for salts of 16 and ivs of 12 bytes on a platform
    whose [atob] undoes [btoa] and whose AES-GCM decryption undoes the
    encryption, for tokens that survive UTF-8 encoding and decoding. *)
Theorem stored_token_round_trip salt iv token passphrase st :
  length salt = 16 -> length iv = 12 ->
  text_decode (Sha256.utf8 token) = token ->
  passphrase ≠ [] ->
  let st' := Storage.clearSession (Storage.setToken salt iv token passphrase st) in
  Crypto.decrypt (Crypto.encrypt salt iv token passphrase) passphrase = Some token
  /\ Sync.decryptToken (Crypto.encrypt salt iv token passphrase) passphrase
     = Some token
  /\ Storage.getToken None st' = (None, st')
  /\ Storage.getToken (Some passphrase) st'
     = (Some token, Storage.setToken salt iv token passphrase st).
Proof.
  intros Hs Hi Ht Hp st'.
  pose proof (decrypt_encrypt salt iv token passphrase Hs Hi Ht) as Hd.
  split; [exact Hd|]. split; [exact Hd|]. split; [reflexivity|].
  subst st'. unfold Storage.getToken, Storage.clearSession, Storage.setToken.
  cbn [Storage._sessionToken Storage.encrypted_token Storage.capsule_endpoint
       truthy negb or_empty].
  destruct passphrase as [|p ps]; [done|].
  destruct (Crypto.encrypt salt iv token (p :: ps)) as [|e es] eqn:Ee.
  { by apply encrypt_nonempty in Ee. }
  cbn [truthy negb or_empty]. rewrite Hd. done.
Qed.

Lemma posts_send_batches_header net endpoint token students http_error thrown
    reports r :
  r ∈ SyncSpec.posts (snd (Sync.send_batches net endpoint token students
                             http_error thrown reports)) ->
  Sync.url r = endpoint ++ lit "/api/v1/sync/students" /\ Sync.bearer r = token.
Proof.
  rewrite send_batches_spec. cbn [snd]. rewrite posts_expected.
  intros Hr. apply list_elem_of_fmap in Hr as (kb & -> & _). done.
Qed.

(** Every request goes to the sync URL of the configured endpoint and
    carries the token: the one [getToken] returns for [syncStudents], and
    for the worker's [pushToCapsule] the token that [setToken] stored under
    the passphrase. *)
Theorem requests_carry_token_and_url net students :
  (forall passphrase st res st' trace r,
     Sync.syncStudents net students passphrase st = (Returns res, st', trace) ->
     r ∈ SyncSpec.posts trace ->
     Some (Sync.bearer r) = fst (Storage.getToken passphrase st)
     /\ Some (Sync.url r)
        = (fun e => e ++ lit "/api/v1/sync/students") <$> Storage.capsule_endpoint st)
  /\ (forall salt iv token passphrase st0 r,
        length salt = 16 -> length iv = 12 ->
        text_decode (Sha256.utf8 token) = token ->
        let st := Storage.setToken salt iv token passphrase st0 in
        r ∈ SyncSpec.posts (snd (Sync.pushToCapsule net students passphrase st)) ->
        Sync.bearer r = token
        /\ Some (Sync.url r)
           = (fun e => e ++ lit "/api/v1/sync/students")
             <$> Storage.capsule_endpoint st0).
Proof.
  split.
  - intros passphrase st res st' trace r Hrun Hr. unfold Sync.syncStudents in Hrun.
    destruct (Storage.getToken passphrase st) as [token st1] eqn:Etok.
    assert (Storage.capsule_endpoint st1 = Storage.capsule_endpoint st) as Hep.
    { unfold Storage.getToken in Etok.
      repeat match type of Etok with
             | (if ?c then _ else _) = _ => destruct c
             | match ?c with Some _ => _ | None => _ end = _ => destruct c
             end; by injection Etok as _ <-. }
    destruct (truthy token) eqn:Et; cbn [negb] in Hrun; [|discriminate Hrun].
    destruct (truthy (Storage.capsuleEndpoint st1)) eqn:Ee; cbn [negb] in Hrun;
      [|discriminate Hrun].
    unfold Storage.capsuleEndpoint in Hrun, Ee.
    destruct (Storage.capsule_endpoint st1) as [ep|] eqn:E1;
      [|discriminate Ee].
    destruct (truthy (Some ep)) eqn:Eep; [|discriminate Ee].
    destruct token as [token|]; [|discriminate Et].
    cbn [or_empty] in Hrun.
    match type of Hrun with
    | (let '(_, _) := ?sb in _) = _ =>
        destruct sb as [res0 trace0] eqn:Esb
    end.
    injection Hrun as _ _ <-.
    apply (f_equal snd) in Esb. cbn [snd] in Esb. rewrite <- Esb in Hr.
    apply posts_send_batches_header in Hr as [Hu Hb].
    cbn [fst]. rewrite <- Hep, Hu, Hb. done.
  - intros salt iv token passphrase st0 r Hs Hi Ht st Hr.
    unfold Sync.pushToCapsule in Hr.
    destruct (negb _ || negb _) eqn:Ecfg; [by apply elem_of_nil in Hr|].
    apply orb_false_iff in Ecfg as [Hend _]. apply negb_false_iff in Hend.
    subst st. cbn [Storage.setToken Storage.encrypted_token Storage.capsule_endpoint
                   or_empty] in *.
    change (Sync.decryptToken ?e ?p) with (Crypto.decrypt e p) in Hr.
    rewrite (decrypt_encrypt salt iv token passphrase Hs Hi Ht) in Hr.
    apply posts_send_batches_header in Hr as [Hu Hb].
    destruct (Storage.capsule_endpoint st0) as [ep|]; [|discriminate Hend].
    cbn [or_empty] in Hu. by rewrite Hu, Hb.
Qed.

End with_platform.

Lemma requests_carry_token_and_url_witness :
  let trace :=
    snd (Sync.pushToCapsule (H := Examples.toy_platform) Examples.second_fails
           (repeat Examples.jane 120) (lit "pass") Examples.stored) in
  exists r, SyncSpec.posts trace !! 2 = Some r
            /\ Sync.bearer r = lit "tok"
            /\ Sync.url r = lit "https://capsule.example/api/v1/sync/students".
Proof.
  intros trace.
  assert (forall bytes, atob (WebCrypto := Examples.toy_platform)
                          (btoa (WebCrypto := Examples.toy_platform) bytes)
                        = Some bytes) as Hab by reflexivity.
  assert (forall key iv plain,
            aes_gcm_decrypt (WebCrypto := Examples.toy_platform) key iv
              (aes_gcm_encrypt (WebCrypto := Examples.toy_platform) key iv plain)
            = Some plain) as Hgcm.
  { intros key iv plain. cbn. induction key as [|a key IH]; [reflexivity|].
    cbn. rewrite N.eqb_refl. exact IH. }
  destruct (SyncSpec.posts trace !! 2) as [r|] eqn:Er;
    [|vm_compute in Er; discriminate Er].
  exists r. split; [reflexivity|].
  apply list_elem_of_lookup_2 in Er.
  destruct (proj2 (requests_carry_token_and_url (H := Examples.toy_platform)
                     Hab Hgcm Examples.second_fails (repeat Examples.jane 120))
              (repeat 1%N 16) (repeat 2%N 12) (lit "tok") (lit "pass")
              (Storage.mkState None None (Some (lit "https://capsule.example")))
              r eq_refl eq_refl eq_refl Er) as [Hb Hu].
  split; [exact Hb|]. cbn in Hu. by injection Hu.
Defined.

Lemma stored_token_round_trip_witness :
  Storage.getToken (H := Examples.toy_platform) (Some (lit "pass")) Examples.stored
  = (Some (lit "tok"),
     Storage.setToken (H := Examples.toy_platform) (repeat 1%N 16) (repeat 2%N 12)
       (lit "tok") (lit "pass")
       (Storage.mkState None None (Some (lit "https://capsule.example")))).
Proof.
  refine (proj2 (proj2 (proj2
    (stored_token_round_trip (H := Examples.toy_platform) _ _ _
       (repeat 1%N 16) (repeat 2%N 12) (lit "tok") (lit "pass")
       (Storage.mkState None None (Some (lit "https://capsule.example")))
       _ _ _ _)))).
  - intros bytes. reflexivity.
  - reflexivity.
  - intros key iv plain. cbn. induction key as [|a key IH]; [reflexivity|].
    cbn. rewrite N.eqb_refl. exact IH.
  - reflexivity.
  - reflexivity.
  - reflexivity.
  - discriminate.
Defined.

End crypto_properties.

Section differ_more_properties.
Import JS Model Differ Spec DifferSpec.

Lemma same_synced_hash a b :
  same_synced_fields a b -> hashStudent a = hashStudent b.
Proof.
  intros (Hid & Hfn & Hln & Hgr & Hhr & Hes & Hem & Hsi).
  unfold hashStudent, normalized.
  by rewrite Hid, Hfn, Hln, Hgr, Hhr, Hes, Hem, Hsi.
Qed.

Lemma same_synced_ids before after :
  Forall2 same_synced_fields before after ->
  map sourcedId after = map sourcedId before.
Proof.
  induction 1 as [|a b before after Hab _ IH]; [done|].
  cbn [map]. rewrite IH. by destruct Hab as [-> _].
Qed.

(** The digest covers the id, the two names and the five optional fields
    only, an absent optional field counting as an empty one: when a roster
    with distinct ids is diffed against the index of an earlier roster whose
    records agree with it on these fields, nothing is reported as changed,
    whatever happened to birth dates, genders and extra columns. *)
Theorem unsynced_fields_never_change before after prior :
  NoDup (map sourcedId before) ->
  Forall2 same_synced_fields before after ->
  fst (diffStudents after (snd (diffStudents before prior))) = [].
Proof.
  intros Hnd Hsame. rewrite !diff_pair. cbn [fst snd].
  destruct (filter _ after) as [|s l] eqn:E; [done|].
  assert (s ∈ filter (fun s => index_of hashStudent before ∅ !! sourcedId s
                               ≠ Some (hashStudent s)) after) as Hs
    by (rewrite E; left).
  apply list_elem_of_filter in Hs as [Hne Hin]. destruct Hne.
  apply list_elem_of_lookup_1 in Hin as [i Hi].
  destruct (Forall2_lookup_r _ _ _ _ _ Hsame Hi) as (r & Hr & Hrs).
  rewrite <- (same_synced_hash r s Hrs).
  destruct Hrs as [<- _].
  rewrite index_lookup_last, last_with_id_unique; [done|done|].
  by apply list_elem_of_lookup_2 in Hr.
Qed.

Lemma unsynced_fields_never_change_witness :
  hashStudent Samples.jane_more = hashStudent Examples.jane
  /\ fst (diffStudents [Samples.jane_more; Examples.bob]
            (snd (diffStudents [Examples.jane; Examples.bob] ∅))) = [].
Proof.
  assert (same_synced_fields Examples.jane Samples.jane_more) as Hj
    by (repeat split).
  assert (same_synced_fields Examples.bob Examples.bob) as Hb
    by (repeat split).
  split.
  - symmetry. exact (same_synced_hash _ _ Hj).
  - apply (unsynced_fields_never_change [Examples.jane; Examples.bob]
             [Samples.jane_more; Examples.bob] ∅).
    + apply (bool_decide_unpack _). vm_compute. exact I.
    + repeat constructor; assumption.
Defined.

End differ_more_properties.

Section trim_properties.
Import JS.

Lemma trimStart_idem s : trimStart (trimStart s) = trimStart s.
Proof.
  induction s as [|c s IH]; [done|]. cbn [trimStart].
  destruct (is_space c) eqn:E; [done|]. cbn [trimStart]. by rewrite E.
Qed.

Lemma trimStart_snoc s c :
  is_space c = false -> trimStart (s ++ [c]) = trimStart s ++ [c].
Proof.
  intros Hc. induction s as [|d s IH]; cbn [app trimStart].
  - by rewrite Hc.
  - by destruct (is_space d).
Qed.

Lemma trimEnd_cons c s :
  is_space c = false -> trimEnd (c :: s) = c :: trimEnd s.
Proof.
  intros Hc. unfold trimEnd. cbn [rev].
  rewrite trimStart_snoc by done. by rewrite rev_app_distr.
Qed.

Lemma trimEnd_idem s : trimEnd (trimEnd s) = trimEnd s.
Proof. unfold trimEnd. by rewrite rev_involutive, trimStart_idem. Qed.

Lemma trimStart_head s c r : trimStart s = c :: r -> is_space c = false.
Proof.
  induction s as [|d s IH]; [done|]. cbn [trimStart].
  destruct (is_space d) eqn:E; [done|]. by intros [= <- _].
Qed.

Lemma trim_idem s : trim (trim s) = trim s.
Proof.
  unfold trim. destruct (trimStart s) as [|c r] eqn:E; [done|].
  pose proof (trimStart_head s c r E) as Hc.
  rewrite trimEnd_cons by done. cbn [trimStart]. rewrite Hc.
  rewrite trimEnd_cons by done. by rewrite trimEnd_idem.
Qed.

End trim_properties.

Section csv_record_properties.
Import JS Model Csv CsvSpec CsvLines.

Ltac split_forall :=
  repeat match goal with
         | |- Forall _ (_ :: _) => apply List.Forall_cons
         | |- Forall _ [] => apply List.Forall_nil
         end.

Lemma stored_trim s : nonempty (trim s) = true -> stored_value (trim s).
Proof.
  intros Hne. split; [by destruct (trim s)|apply trim_idem].
Qed.

Lemma clean_set_field f v p :
  stored_value v -> clean_partial p -> clean_partial (set_field f v p).
Proof.
  intros Hv [Hf He]. split; [|by destruct f].
  repeat match goal with
         | H : Forall _ (_ :: _) |- _ => apply Forall_cons in H as [? H]
         end.
  destruct f; cbn; split_forall; try assumption; by intros ? [= <-].
Qed.

Lemma clean_set_extra k v p :
  stored_value v -> clean_partial p -> clean_partial (set_extra k v p).
Proof.
  intros Hv [Hf He]. split; [done|]. intros k' v'. cbn [set_extra p_extra].
  destruct (decide (k = k')) as [<-|Hne].
  - rewrite lookup_insert_eq. by intros [= <-].
  - rewrite lookup_insert_ne by done. apply He.
Qed.

Lemma clean_fill_mapped mapping row p :
  clean_partial p -> clean_partial (fill_mapped mapping row p).
Proof.
  unfold fill_mapped. revert p.
  induction mapping as [|[i f] mapping IH]; intros p Hp; [done|].
  cbn [fold_left]. apply IH.
  destruct (nonempty (trim (or_empty (cell row i)))) eqn:E; [|done].
  apply clean_set_field; [by apply stored_trim|done].
Qed.

Lemma clean_fill_extra i headers mapping row p :
  clean_partial p -> clean_partial (fill_extra_from i headers mapping row p).
Proof.
  revert i p. induction headers as [|h headers IH]; intros i p Hp; [done|].
  cbn [fill_extra_from]. apply IH.
  destruct (negb (is_mapped mapping i) && truthy (cell row i)
            && nonempty (trim (or_empty (cell row i)))) eqn:E; [|done].
  apply andb_true_iff in E as [_ E].
  apply clean_set_extra; [by apply stored_trim|done].
Qed.

Lemma clean_empty : clean_partial empty_partial.
Proof.
  split; [split_forall; discriminate|].
  intros k v. cbn. by rewrite lookup_empty.
Qed.

(** What [parseExportCSV] returns is well formed: every record has an id
    that is not empty and a first or a last name; every field it carries and
    every extra value is a non-empty text without white space at either end,
    and so is the id unless it is the synthesized one; and there is at most
    one record per data row. *)
Theorem csv_records_well_formed csvText r :
  r ∈ parseExportCSV csvText ->
  sourcedId r ≠ []
  /\ (stored_value (sourcedId r)
      \/ sourcedId r = lit "ps_" ++ toLowerCase (or_empty (lastName r)) ++ lit "_"
                       ++ toLowerCase (or_empty (firstName r)))
  /\ truthy (firstName r) || truthy (lastName r) = true
  /\ Forall (fun o => forall v, o = Some v -> stored_value v)
       [firstName r; lastName r; gradeLevel r; homeRoom r; enrollStatus r;
        email r; schoolId r; dob r; gender r]
  /\ (forall k v, extra r !! k = Some v -> stored_value v)
  /\ length (parseExportCSV csvText) < length (all_rows (strip_bom csvText)).
Proof.
  unfold parseExportCSV, parseCSV.
  destruct (all_rows (strip_bom csvText)) as [|first rest];
    [intros Hr; by apply elem_of_nil in Hr|].
  destruct (negb (nonempty (map trim first)) || negb (nonempty rest));
    [intros Hr; by apply elem_of_nil in Hr|].
  destruct (negb (nonempty (mapCSVHeaders (map trim first))));
    [intros Hr; by apply elem_of_nil in Hr|].
  intros Hr.
  assert (length (omap (parse_row (map trim first) (mapCSVHeaders (map trim first)))
                    rest) < length (first :: rest)) as Hlen.
  { cbn [length]. apply Nat.lt_succ_r. clear Hr.
    induction rest as [|row rest IH]; [done|]. cbn [omap list_omap length].
    destruct (parse_row _ _ row); cbn [length]; lia. }
  apply list_elem_of_omap in Hr as (row & _ & Hrow).
  unfold parse_row in Hrow.
  destruct (negb (nonempty row) || _); [discriminate Hrow|].
  set (p := fill_extra_from 0 (map trim first) (mapCSVHeaders (map trim first)) row
              (fill_mapped (mapCSVHeaders (map trim first)) row empty_partial))
    in Hrow.
  assert (clean_partial p) as [Hf He]
    by (apply clean_fill_extra, clean_fill_mapped, clean_empty).
  repeat match goal with
         | H : Forall _ (_ :: _) |- _ => apply Forall_cons in H as [? H]
         end.
  destruct (truthy (p_firstName p) || truthy (p_lastName p)) eqn:Ename;
    [|discriminate Hrow].
  destruct (truthy (p_sourcedId p)) eqn:Eid; cbn [negb] in Hrow;
    injection Hrow as <-; cbn [complete sourcedId firstName lastName gradeLevel
      homeRoom enrollStatus email schoolId dob gender extra].
  - destruct (p_sourcedId p) as [[|c id]|] eqn:Ei; try discriminate Eid.
    cbn [or_empty]. split; [done|]. split; [left; by eauto|].
    split; [done|]. split; [|done]. split_forall; assumption.
  - split; [done|]. split; [by right|].
    split; [done|]. split; [|done]. split_forall; assumption.
Qed.

Lemma csv_records_well_formed_witness :
  let t := lit " Student_Number ,First,Locker" ++ [LF]
           ++ lit " 12 , Jane ,  7b" ++ [LF] ++ lit ",Bob," ++ [LF] in
  let r := mkStudent (lit "ps__bob") (Some (lit "Bob")) None None None None None
             None None None ∅ in
  r ∈ parseExportCSV t /\ sourcedId r ≠ [] /\ length (parseExportCSV t) < 3.
Proof.
  intros t r.
  assert (r ∈ parseExportCSV t) as Hr.
  { apply (list_elem_of_lookup_2 _ 1). vm_compute. reflexivity. }
  split; [exact Hr|].
  destruct (csv_records_well_formed t r Hr) as (Hid & _ & _ & _ & _ & Hlen).
  split; [exact Hid|exact Hlen].
Defined.

End csv_record_properties.

Section csv_line_properties.
Import JS Model Csv CsvSpec CsvLines.

Lemma write_field_head f x :
  head (write_field f ++ x) = Some LF -> f = [] /\ head x = Some LF.
Proof.
  unfold write_field. destruct (existsb is_special f) eqn:E; [done|].
  destruct f as [|c f]; [done|]. cbn [app head]. intros [= ->].
  cbn in E. discriminate E.
Qed.

Lemma write_row_head r x : is_record r -> head (write_row r ++ x) ≠ Some LF.
Proof.
  intros [Hr1 Hr2] Hh. destruct r as [|f r]; [done|]. destruct r as [|g r].
  - cbn [write_row] in Hh. apply write_field_head in Hh as [-> _]. done.
  - cbn [write_row] in Hh. rewrite <- app_assoc in Hh.
    by apply write_field_head in Hh as [_ Hh].
Qed.

Lemma scan_line_break k rest s :
  inQuotes s = false ->
  scan (line_break k ++ rest) s
  = scan (match k with
          | EndCR => if bool_decide (head rest = Some LF) then tail rest else rest
          | _ => rest
          end) (end_of_line s).
Proof.
  intros Hq. destruct k.
  - exact (scan_eol false rest s Hq).
  - exact (scan_eol true rest s Hq).
  - cbn [line_break app]. rewrite scan_unfold, Hq. cbn.
    by destruct (bool_decide (head rest = Some LF)).
Qed.

Lemma end_of_line_row R r :
  is_record r ->
  end_of_line (mkScanner R (removelast r) (List.last r []) false)
  = mkScanner (R ++ [r]) [] [] false.
Proof.
  intros [Hr1 Hr2]. rewrite end_of_line_record.
  - cbn [rows_out lines current inQuotes].
    assert (removelast r ++ [List.last r []] = r) as ->
      by (symmetry; by apply app_removelast_last).
    done.
  - cbn [lines current]. destruct r as [|f r]; [done|]. destruct r as [|g r].
    + cbn. by destruct f.
    + cbn [removelast]. cbn. by rewrite orb_true_r.
Qed.

Lemma scan_lines ls rest R :
  Forall is_record (records_of ls) -> head rest ≠ Some LF ->
  scan (write_lines ls ++ rest) (mkScanner R [] [] false)
  = scan rest (mkScanner (R ++ records_of ls) [] [] false).
Proof.
  intros Hrec Hrest. revert R.
  induction ls as [|[k o] ls IH]; intros R.
  - cbn. by rewrite app_nil_r.
  - assert (Forall is_record (records_of ls)) as Hrec'.
    { destruct o; [|done]. unfold records_of in Hrec.
      cbn [omap list_omap snd] in Hrec. by apply Forall_cons in Hrec as [_ ?]. }
    specialize (IH Hrec').
    assert (forall s R', inQuotes s = false ->
      end_of_line s = mkScanner R' [] [] false ->
      scan (line_break k ++ write_lines ls ++ rest) s
      = scan rest (mkScanner (R' ++ records_of ls) [] [] false)) as Hbreak.
    { intros s R' Hq Hs. rewrite scan_line_break by done. rewrite Hs.
      destruct k; [apply IH|apply IH|].
      destruct (decide (head (write_lines ls ++ rest) = Some LF)) as [Hh|Hh].
      - rewrite bool_decide_eq_true_2 by done.
        rewrite <- IH. destruct (write_lines ls ++ rest) as [|c t]; [done|].
        injection Hh as ->. cbn [tail]. rewrite (scan_unfold LF). cbn. done.
      - rewrite bool_decide_eq_false_2 by done. apply IH. }
    unfold write_lines. cbn [map concat]. fold (write_lines ls).
    unfold write_line. cbn [fst snd]. destruct o as [r|].
    + unfold records_of in Hrec |- *. cbn [omap list_omap snd] in Hrec |- *.
      fold (records_of ls) in Hrec |- *.
      apply Forall_cons in Hrec as [Hr _].
      rewrite <- !app_assoc.
      rewrite scan_row; [|done|done|by destruct Hr|by destruct k].
      cbn [rows_out lines app].
      rewrite (Hbreak _ (R ++ [r])); [|done|by apply end_of_line_row].
      by rewrite <- app_assoc.
    + rewrite <- app_assoc. by apply Hbreak.
Qed.

Lemma end_of_line_rows s :
  Forall (fun row => row ≠ []) (rows_out s) ->
  Forall (fun row => row ≠ []) (rows_out (end_of_line s)).
Proof.
  intros Hs. unfold end_of_line.
  destruct (nonempty (current s) || nonempty (lines s)).
  - cbn [lines rows_out current inQuotes].
    destruct (lines s ++ [current s]) as [|f l] eqn:E; [done|].
    cbn [nonempty rows_out]. apply Forall_app. split; [done|].
    by repeat constructor.
  - destruct (lines s) as [|f l] eqn:E; [done|].
    cbn [nonempty rows_out]. apply Forall_app. split; [done|].
    by repeat constructor.
Qed.

Lemma scan_rows_nonempty n t s :
  length t <= n ->
  Forall (fun row => row ≠ []) (rows_out s) ->
  Forall (fun row => row ≠ []) (rows_out (scan t s)).
Proof.
  revert t s. induction n as [|n IH]; intros t s Hlen Hs.
  - destruct t; [done|cbn in Hlen; lia].
  - destruct t as [|c rest]; [done|]. cbn [length] in Hlen.
    assert (Hrest : length rest <= n) by lia.
    assert (Htail : length (tail rest) <= n)
      by (destruct rest; cbn [tail length] in *; lia).
    pose proof (end_of_line_rows s Hs) as He.
    rewrite scan_unfold.
    repeat match goal with |- context [if ?b then _ else _] => destruct b end;
      by apply IH.
Qed.

(** Blank lines and mixed line breaks: a text made of rows written the
    RFC 4180 way and of blank lines, each ended by LF, CR LF or a bare CR, is
    read back as its rows, the blank lines leaving no trace; a last row
    without line break is read as well.  The tokenizer never yields a row
    without fields. *)
Theorem csv_blank_lines_skipped :
  (forall ls, Forall is_record (records_of ls) ->
     all_rows (write_lines ls) = records_of ls)
  /\ (forall ls r, Forall is_record (records_of ls) -> is_record r ->
       all_rows (write_lines ls ++ write_row r) = records_of ls ++ [r])
  /\ (forall csv, Forall (fun row => row ≠ []) (all_rows csv)).
Proof.
  split; [|split].
  - intros ls Hrec. unfold all_rows.
    rewrite <- (app_nil_r (write_lines ls)), scan_lines by done. done.
  - intros ls r Hrec Hr. unfold all_rows.
    rewrite scan_lines; [|done|].
    2:{ rewrite <- (app_nil_r (write_row r)). by apply write_row_head. }
    rewrite <- (app_nil_r (write_row r)), scan_row; [|done|done|by destruct Hr|done].
    cbn [scan rows_out lines current app].
    pose proof (end_of_line_row (records_of ls) r Hr) as He.
    destruct Hr as [Hr1 Hr2].
    assert (removelast r ++ [List.last r []] = r) as Hl
      by (symmetry; by apply app_removelast_last).
    rewrite Hl.
    destruct r as [|f r]; [done|]. destruct r as [|g r].
    + destruct f; done.
    + cbn [removelast]. cbn. by rewrite orb_true_r.
  - intros csv. unfold all_rows.
    pose proof (scan_rows_nonempty (length csv) csv (mkScanner [] [] [] false)
                  (Nat.le_refl _) (Forall_nil_2 _)) as Hs.
    destruct (nonempty _ || nonempty _); [|done].
    apply Forall_app. split; [done|]. repeat constructor.
    by destruct (lines _).
Qed.

Lemma csv_blank_lines_skipped_witness :
  all_rows ([LF; CR; LF] ++ lit "a,b" ++ [CR; CR; LF; LF] ++ [QUOTE] ++ lit "c,"
            ++ [LF; QUOTE] ++ [CR] ++ [CR] ++ lit "d")
  = [[lit "a"; lit "b"]; [lit "c," ++ [LF]]; [lit "d"]].
Proof.
  refine (proj1 (proj2 csv_blank_lines_skipped)
            [(EndLF, None); (EndCRLF, None); (EndCR, Some [lit "a"; lit "b"]);
             (EndCRLF, None); (EndLF, None); (EndCR, Some [lit "c," ++ [LF]]);
             (EndCR, None)]
            [lit "d"] _ _).
  - repeat constructor; discriminate.
  - split; discriminate.
Defined.

End csv_line_properties.

Section csv_bom_witness.
Import JS Model Csv CsvSpec.

Lemma parseExportCSV_bom_harmless_witness :
  parseExportCSV (BOM :: lit "id,first" ++ [LF] ++ lit "1,Bob")
  = parseExportCSV (lit "id,first" ++ [LF] ++ lit "1,Bob").
Proof.
  apply (parseExportCSV_bom_harmless (lit "id,first" ++ [LF] ++ lit "1,Bob"));
    reflexivity.
Defined.

End csv_bom_witness.

Section settings_properties.
Import JS Model.

(** The endpoint setting: a non-empty url is stored and read back by the
    next call without argument, and nothing else is touched; a call with an
    empty url or without argument stores nothing, so the endpoint, once set,
    cannot be cleared through [capsuleEndpoint], and reads null as long as
    none is stored. *)
Theorem capsuleEndpoint_set_then_get url st :
  url ≠ [] ->
  let st' := snd (Settings.capsuleEndpoint (Some url) st) in
  fst (Settings.capsuleEndpoint (Some url) st) = Some url
  /\ Settings.capsuleEndpoint None st' = (Some url, st')
  /\ Settings.capsuleEndpoint (Some []) st' = (Some url, st')
  /\ Storage.capsuleEndpoint st' = Some url
  /\ Storage._sessionToken st' = Storage._sessionToken st
  /\ Storage.encrypted_token st' = Storage.encrypted_token st
  /\ (truthy (Storage.capsule_endpoint st) = false ->
      Settings.capsuleEndpoint None st = (None, st)).
Proof.
  intros Hurl st'. subst st'. destruct url as [|c url]; [done|].
  split_and!; try done.
  intros Hst. unfold Settings.capsuleEndpoint. cbn [truthy]. by rewrite Hst.
Qed.

Lemma capsuleEndpoint_set_then_get_witness :
  let st' := snd (Settings.capsuleEndpoint (Some (lit "https://capsule.example"))
                    (Storage.mkState None None None)) in
  Settings.capsuleEndpoint None st' = (Some (lit "https://capsule.example"), st')
  /\ Settings.capsuleEndpoint (Some []) st'
     = (Some (lit "https://capsule.example"), st').
Proof.
  intros st'.
  destruct (capsuleEndpoint_set_then_get (lit "https://capsule.example")
              (Storage.mkState None None None)) as (_ & Hget & Hempty & _);
    [discriminate|].
  split; [exact Hget|exact Hempty].
Defined.

End settings_properties.

Section roster_more_properties.
Import JS Model Roster RosterSpec.

Lemma largest_spec best ts :
  match largest best ts with
  | None => best = None /\ ts = []
  | Some t =>
      (forall u, u ∈ ts -> length u <= length t)
      /\ (forall b, best = Some b -> length b <= length t)
      /\ (best = Some t
          \/ (exists pre post, ts = pre ++ t :: post
                /\ (forall u, u ∈ pre -> length u < length t)
                /\ (forall b, best = Some b -> length b < length t)))
  end.
Proof.
  revert best. induction ts as [|t ts IH]; intros best.
  - cbn [largest]. destruct best as [b|]; [|done].
    split; [intros u Hu; by apply elem_of_nil in Hu|].
    split; [by intros ? [= <-]|by left].
  - cbn [largest].
    set (best' := match best with
                  | Some b => if length b <? length t then Some t else Some b
                  | None => Some t
                  end).
    assert (exists b', best' = Some b' /\ length t <= length b'
              /\ (forall b, best = Some b -> length b <= length b')
              /\ ((b' = t /\ forall b, best = Some b -> length b < length t)
                  \/ best = Some b')) as (b' & Hb' & Htb & Hbb & Hcase).
    { subst best'. destruct best as [b|].
      - destruct (Nat.ltb_spec (length b) (length t)).
        + exists t. split; [done|]. split; [done|].
          split; [intros ? [= <-]; lia|]. left. split; [done|]. by intros ? [= <-].
        + exists b. split; [done|]. split; [done|].
          split; [by intros ? [= <-]|]. by right.
      - exists t. split; [done|]. split; [done|]. split; [done|]. by left. }
    clearbody best'. subst best'.
    specialize (IH (Some b')). destruct (largest (Some b') ts) as [m|];
      [|by destruct IH].
    destruct IH as (Hall & Hbest & Hfirst).
    specialize (Hbest b' eq_refl).
    split; [|split].
    + intros u Hu. apply elem_of_cons in Hu as [->|Hu]; [lia|by apply Hall].
    + intros b Hb. specialize (Hbb b Hb). lia.
    + destruct Hfirst as [[= <-]|(pre & post & -> & Hpre & Hlt)].
      * destruct Hcase as [[-> Hlt]|Hb]; [|by left].
        right. exists [], ts. split; [done|].
        split; [intros u Hu; by apply elem_of_nil in Hu|done].
      * specialize (Hlt b' eq_refl).
        right. exists (t :: pre), post. split; [done|]. split.
        -- intros u Hu. apply elem_of_cons in Hu as [->|Hu]; [lia|by apply Hpre].
        -- intros b Hb. specialize (Hbb b Hb). lia.
Qed.

(** Which table [findTable] picks when no selector matches: none when no
    table of the page has more than three rows; otherwise a table with more
    than three rows that no table of the page exceeds in rows and, among
    the tables with as many rows, the first in document order. *)
Theorem findTable_fallback pg :
  first_selected pg TABLE_SELECTORS = None ->
  match findTable pg with
  | None => forall t, t ∈ all_tables pg -> length t <= 3
  | Some t =>
      3 < length t
      /\ (forall u, u ∈ all_tables pg -> length u <= length t)
      /\ exists pre post, all_tables pg = pre ++ t :: post
           /\ forall u, u ∈ pre -> length u < length t
  end.
Proof.
  intros Hsel. unfold findTable. rewrite Hsel.
  pose proof (largest_spec None
                (List.filter (fun t => 3 <? length t) (all_tables pg))) as Hl.
  destruct (largest None _) as [t|].
  - destruct Hl as (Hall & _ & [Habs|(pre & post & Heq & Hpre & _)]);
      [discriminate Habs|].
    assert (In t (List.filter (fun t => 3 <? length t) (all_tables pg))) as Hin
      by (rewrite Heq; apply in_elt).
    apply filter_In in Hin as [Hin Ht]. apply Nat.ltb_lt in Ht.
    split; [done|]. split.
    + intros u Hu. destruct (Nat.ltb_spec 3 (length u)) as [H3|H3]; [|lia].
      apply Hall, list_elem_of_In, filter_In. split; [by apply list_elem_of_In|].
      by apply Nat.ltb_lt.
    + clear Hall Hin.
      revert pre Heq Hpre. induction (all_tables pg) as [|u us IH]; intros pre Heq Hpre.
      { by destruct pre. }
      cbn [List.filter] in Heq.
      destruct (Nat.ltb_spec 3 (length u)) as [H3|H3].
      * destruct pre as [|p pre].
        -- injection Heq as -> _. exists [], us. split; [done|].
           intros ? Hx. by apply elem_of_nil in Hx.
        -- injection Heq as -> Heq.
           destruct (IH pre Heq) as (pre' & post' & -> & Hpre').
           { intros x Hx. apply Hpre. by right. }
           exists (p :: pre'), post'. split; [done|].
           intros x Hx. apply elem_of_cons in Hx as [->|Hx].
           ++ apply Hpre. left.
           ++ by apply Hpre'.
      * destruct (IH pre Heq Hpre) as (pre' & post' & -> & Hpre').
        exists (u :: pre'), post'. split; [done|].
        intros x Hx. apply elem_of_cons in Hx as [->|Hx]; [lia|by apply Hpre'].
  - destruct Hl as [_ Hnil]. intros t Ht.
    destruct (Nat.ltb_spec 3 (length t)) as [H3|H3]; [|done].
    assert (In t (List.filter (fun t => 3 <? length t) (all_tables pg))) as Hin.
    { apply filter_In. split; [by apply list_elem_of_In|by apply Nat.ltb_lt]. }
    rewrite Hnil in Hin. destruct Hin.
Qed.

Lemma findTable_fallback_witness :
  let c := mkCell [] None in
  let pg := mkPage (fun _ => None)
              [[[c]; [c]; [c]]; [[c]; [c]; [c]; [c]]; [[c]; [c]; [c]; [c]; [c]];
               [[c; c]; [c]; [c]; [c]; [c]]] in
  findTable pg = Some [[c]; [c]; [c]; [c]; [c]]
  /\ forall u, u ∈ all_tables pg -> length u <= 5.
Proof.
  intros c pg. pose proof (findTable_fallback pg eq_refl) as Hf.
  change (findTable pg) with (Some [[c]; [c]; [c]; [c]; [c]]) in Hf.
  split; [reflexivity|]. exact (proj1 (proj2 Hf)).
Defined.

Lemma synthesize_id_nonempty record r : synthesize_id record r ≠ [].
Proof. done. Qed.

Lemma roster_row_spec headerMap r cells record :
  roster_row headerMap r cells = Some record ->
  sourcedId record ≠ []
  /\ truthy (firstName record) || truthy (lastName record) = true.
Proof.
  unfold roster_row. destruct (negb (Csv.nonempty cells)); [done|].
  destruct (fold_left _ _ _) as [p hasData].
  destruct hasData; cbn [andb]; [|done].
  destruct (truthy (Csv.p_firstName p) || truthy (Csv.p_lastName p)) eqn:En; [|done].
  destruct (truthy (Csv.p_sourcedId p)) eqn:Ei; cbn [negb]; intros [= <-];
    cbn [Csv.complete sourcedId firstName lastName].
  - split; [|done]. by destruct (Csv.p_sourcedId p) as [[|]|].
  - done.
Qed.

Lemma roster_rows_elem headerMap r rows record :
  record ∈ roster_rows headerMap r rows ->
  exists j cells, r <= j /\ rows !! (j - r) = Some cells
                  /\ roster_row headerMap j cells = Some record.
Proof.
  revert r. induction rows as [|cells rows IH]; intros r Hin.
  - by apply elem_of_nil in Hin.
  - cbn [roster_rows] in Hin.
    assert (record ∈ roster_rows headerMap (S r) rows ->
            exists j cells', r <= j /\ (cells :: rows) !! (j - r) = Some cells'
                             /\ roster_row headerMap j cells' = Some record) as Hrest.
    { intros Hr. destruct (IH _ Hr) as (j & cells' & Hj & Hl & Hrow).
      exists j, cells'. split; [lia|]. split; [|done].
      replace (j - r) with (S (j - S r)) by lia. done. }
    destruct (roster_row headerMap r cells) as [rec|] eqn:E; [|by apply Hrest].
    apply elem_of_cons in Hin as [->|Hin]; [|by apply Hrest].
    exists r, cells. split; [done|]. by rewrite Nat.sub_diag.
Qed.

Lemma roster_rows_length headerMap r rows :
  length (roster_rows headerMap r rows) <= length rows.
Proof.
  revert r. induction rows as [|cells rows IH]; intros r; [done|].
  cbn [roster_rows]. specialize (IH (S r)).
  destruct (roster_row headerMap r cells); cbn [length]; lia.
Qed.

(** What [parseRoster] returns is well formed: every record has an id that
    is not empty and a first or a last name that is not empty; records come
    only from a table of at least two rows, at most one per row below the
    header row. *)
Theorem roster_records_well_formed pg record :
  record ∈ parseRoster pg ->
  sourcedId record ≠ []
  /\ truthy (firstName record) || truthy (lastName record) = true
  /\ exists rows, findTable pg = Some rows /\ 2 <= length rows
                  /\ length (parseRoster pg) < length rows.
Proof.
  unfold parseRoster. destruct (findTable pg) as [rows|];
    [|intros Hr; by apply elem_of_nil in Hr].
  destruct (Nat.ltb_spec (length rows) 2) as [Hlt|Hge];
    [intros Hr; by apply elem_of_nil in Hr|].
  destruct (if negb (Csv.nonempty (mapHeaders (default [] (rows !! 0))))
               && (1 <? length rows)
            then (1, mapHeaders (default [] (rows !! 1)))
            else (0, mapHeaders (default [] (rows !! 0))))
    as [headerIdx headerMap].
  match goal with
  | |- context [if negb (Csv.nonempty ?m) then _ else _] => set (hm := m)
  end.
  destruct (negb (Csv.nonempty hm)); [intros Hr; by apply elem_of_nil in Hr|].
  intros Hr. apply roster_rows_elem in Hr as (j & cells & _ & _ & Hrow).
  apply roster_row_spec in Hrow as [Hid Hname].
  split; [done|]. split; [done|]. exists rows. split; [done|]. split; [done|].
  pose proof (roster_rows_length hm (headerIdx + 1) (skipn (headerIdx + 1) rows)) as Hl.
  rewrite length_skipn in Hl. lia.
Qed.

Lemma roster_records_well_formed_witness :
  let c := fun s => mkCell (lit s) None in
  let pg := mkPage (fun _ => None)
              [[[c "Student"; c "Grade"]; [c "Doe, Jane"; c "5"]; [c ""; c "6"];
                [c "Ray, Bob"; c "6"]]] in
  let record := mkStudent (lit "ps_ray_bob_3") (Some (lit "Bob")) (Some (lit "Ray"))
                  (Some (lit "6")) None None None None None None ∅ in
  record ∈ parseRoster pg /\ length (parseRoster pg) < 4.
Proof.
  intros c pg record.
  assert (record ∈ parseRoster pg) as Hr.
  { apply (list_elem_of_lookup_2 _ 1). vm_compute. reflexivity. }
  split; [exact Hr|].
  destruct (roster_records_well_formed pg record Hr) as (_ & _ & rows & Hf & _ & Hl).
  change (findTable pg) with (Some (hd [] (all_tables pg))) in Hf.
  injection Hf as <-. exact Hl.
Defined.

End roster_more_properties.

Section regex_properties.
Import JS Model Regex RegexSpec.

Ltac bools :=
  repeat match goal with
         | H : (_ && _) = true |- _ => apply andb_true_iff in H as [? ?]
         | H : (_ || _) = false |- _ => apply orb_false_iff in H as [? ?]
         | H : (_ <=? _)%N = true |- _ => apply N.leb_le in H
         | H : (_ <=? _)%N = false |- _ => apply N.leb_gt in H
         | H : (_ =? _)%N = true |- _ => apply N.eqb_eq in H
         | H : (_ =? _)%N = false |- _ => apply N.eqb_neq in H
         end.

Lemma upper_unit_cases x y :
  upper_unit x = upper_unit y ->
  x = y \/ (is_letter x = true /\ is_letter y = true).
Proof.
  unfold upper_unit, is_letter.
  destruct ((97 <=? x) && (x <=? 122))%N eqn:Ex;
    destruct ((97 <=? y) && (y <=? 122))%N eqn:Ey; intros Heq.
  - right. by rewrite !orb_true_r.
  - right. rewrite orb_true_r. split; [done|]. subst y.
    apply andb_true_iff in Ex as [H1 H2]. apply N.leb_le in H1, H2.
    apply orb_true_iff. left. apply andb_true_iff. split; apply N.leb_le; lia.
  - right. rewrite orb_true_r. split; [|done]. subst x.
    apply andb_true_iff in Ey as [H1 H2]. apply N.leb_le in H1, H2.
    apply orb_true_iff. left. apply andb_true_iff. split; apply N.leb_le; lia.
  - by left.
Qed.

Lemma letter_range c :
  is_letter c = true -> (65 <= c <= 122)%N.
Proof.
  unfold is_letter. intros H. apply orb_true_iff in H as [H|H];
    apply andb_true_iff in H as [H1 H2]; apply N.leb_le in H1, H2; lia.
Qed.

Lemma letter_plain c :
  is_letter c = true ->
  is_space c = false /\ is_digit c = false /\ is_line_terminator c = false.
Proof.
  intros H. apply letter_range in H.
  unfold is_space, is_digit, is_line_terminator.
  repeat match goal with
         | |- context [(?a =? ?b)%N] => destruct (N.eqb_spec a b); [lia|]
         | |- context [(?a <=? ?b)%N] => destruct (N.leb_spec a b); try lia
         end; done.
Qed.

Lemma same_unit_class x y :
  upper_unit x = upper_unit y ->
  is_space x = is_space y /\ is_digit x = is_digit y
  /\ is_line_terminator x = is_line_terminator y.
Proof.
  intros H. apply upper_unit_cases in H as [->|[Hx Hy]]; [done|].
  apply letter_plain in Hx as (-> & -> & ->).
  by apply letter_plain in Hy as (-> & -> & ->).
Qed.

Lemma run_same_letters {A} r : forall pos s s' (k k' : nat -> jsstring -> option A),
  same_letters s s' ->
  (forall p t t', same_letters t t' -> k p t = k' p t') ->
  run r pos s k = run r pos s' k'.
Proof.
  induction r as [| | |c| | |a IHa b IHb|a IHa b IHb|a IHa];
    intros pos s s' k k' Hs Hk; cbn [run].
  - by apply Hk.
  - destruct (Nat.eqb pos 0); [by apply Hk|done].
  - destruct Hs; [by apply Hk; constructor|done].
  - destruct Hs as [|x y s s' Hxy Hs]; [done|].
    unfold same_unit. rewrite Hxy. destruct (_ =? _)%N; [by apply Hk|done].
  - destruct Hs as [|x y s s' Hxy Hs]; [done|].
    apply same_unit_class in Hxy as (_ & _ & ->).
    destruct (is_line_terminator y); [done|by apply Hk].
  - destruct Hs as [|x y s s' Hxy Hs]; [done|].
    apply same_unit_class in Hxy as (_ & -> & _).
    destruct (is_digit y); [by apply Hk|done].
  - apply IHa; [done|]. intros p t t' Ht. by apply IHb.
  - rewrite (IHa pos s s' k k' Hs Hk), (IHb pos s s' k k' Hs Hk). done.
  - rewrite (IHa pos s s' k k' Hs Hk), (Hk pos s s' Hs). done.
Qed.

Lemma search_same_letters {A} r pos s s' (k k' : nat -> jsstring -> option A) :
  same_letters s s' ->
  (forall p t t', same_letters t t' -> k p t = k' p t') ->
  search r pos s k = search r pos s' k'.
Proof.
  intros Hs Hk. revert pos. induction Hs as [|x y s s' Hxy Hs IH]; intros pos.
  - cbn [search]. by rewrite (run_same_letters r pos [] [] k k') by (done || constructor).
  - cbn [search].
    rewrite (run_same_letters r pos (x :: s) (y :: s') k k')
      by (done || by constructor).
    by rewrite IH.
Qed.

Lemma test_same_letters pattern s s' :
  same_letters s s' -> test pattern s = test pattern s'.
Proof.
  intros Hs. unfold test.
  by rewrite (search_same_letters _ 0 s s' (fun _ _ => Some tt) (fun _ _ => Some tt)).
Qed.

Lemma trimStart_same_letters s s' :
  same_letters s s' -> same_letters (trimStart s) (trimStart s').
Proof.
  induction 1 as [|x y s s' Hxy Hs IH]; [constructor|].
  cbn [trimStart]. destruct (same_unit_class x y Hxy) as (-> & _ & _).
  destruct (is_space y); [done|by constructor].
Qed.

Lemma rev_same_letters s s' : same_letters s s' -> same_letters (rev s) (rev s').
Proof.
  induction 1 as [|x y s s' Hxy Hs IH]; [constructor|].
  cbn [rev]. apply Forall2_app; [done|]. by repeat constructor.
Qed.

Lemma trim_same_letters s s' : same_letters s s' -> same_letters (trim s) (trim s').
Proof.
  intros H. unfold trim, trimEnd.
  by apply rev_same_letters, trimStart_same_letters, rev_same_letters,
    trimStart_same_letters.
Qed.

Lemma lower_same_letters s s' : same_letters s s' -> toLowerCase s = toLowerCase s'.
Proof.
  induction 1 as [|x y s s' Hxy Hs IH]; [done|].
  unfold toLowerCase in *. cbn [map]. rewrite IH. f_equal.
  clear -Hxy. unfold upper_unit, lower_unit in *.
  repeat match goal with
         | H : context [(?a <=? ?b)%N] |- _ => destruct (N.leb_spec a b)
         | |- context [(?a <=? ?b)%N] => destruct (N.leb_spec a b)
         | |- context [(?a =? ?b)%N] => destruct (N.eqb_spec a b)
         end; cbn [andb negb] in *; lia.
Qed.

Lemma first_pattern_same_letters patterns s s' :
  same_letters s s' ->
  Roster.first_pattern patterns s = Roster.first_pattern patterns s'.
Proof.
  intros Hs. induction patterns as [|[f p] patterns IH]; [done|].
  cbn [Roster.first_pattern]. by rewrite (test_same_letters p s s' Hs), IH.
Qed.

(** Headers are matched without regard to the case of ASCII letters: two
    header rows whose texts differ in letter case only get the same column
    mapping from the roster parser's [mapHeaders], and two such header lists
    the same mapping from [mapCSVHeaders]. *)
Theorem header_mapping_ignores_case :
  (forall row row',
     Forall2 (fun c c' => same_letters (Roster.textContent c) (Roster.textContent c'))
       row row' ->
     Roster.mapHeaders row = Roster.mapHeaders row')
  /\ (forall headers headers',
       Forall2 same_letters headers headers' ->
       Csv.mapCSVHeaders headers = Csv.mapCSVHeaders headers').
Proof.
  split.
  - intros row row' H. unfold Roster.mapHeaders. generalize 0.
    induction H as [|c c' row row' Hc _ IH]; intros i; [done|].
    cbn [Roster.map_headers_from].
    rewrite (first_pattern_same_letters _ _ _ (trim_same_letters _ _ Hc)).
    by rewrite IH.
  - intros headers headers' H. unfold Csv.mapCSVHeaders. generalize 0.
    induction H as [|h h' headers headers' Hh _ IH]; intros i; [done|].
    cbn [Csv.map_headers_from]. rewrite (lower_same_letters h h' Hh).
    by rewrite IH.
Qed.

Lemma header_mapping_ignores_case_witness :
  Roster.mapHeaders [Roster.mkCell (lit " STUDENT id ") None;
                     Roster.mkCell (lit "Last Name") None]
  = Roster.mapHeaders [Roster.mkCell (lit " student ID ") None;
                       Roster.mkCell (lit "LAST name") None]
  /\ Csv.mapCSVHeaders [lit "First_Name"; lit "DCID"]
     = Csv.mapCSVHeaders [lit "first_name"; lit "dcid"].
Proof.
  split.
  - apply (proj1 header_mapping_ignores_case).
    repeat constructor.
  - apply (proj2 header_mapping_ignores_case).
    repeat constructor.
Defined.

End regex_properties.
